(** * vite-cli: a shallow embedding of [src/index.js]

    The program is a small scaffolding CLI: it resolves a target directory
    and a template from the command line, fills the gaps with interactive
    questions, and copies a template directory into the project directory.

    The embedding follows the source top to bottom:
    - JS strings are sequences of UTF-16 code units ([jsstring]);
    - the catalog [FRAMEWORKS] / [TEMPLATES] is the literal of the source;
    - [prompts] is the question loop of the prompts package, driven by a
      script of user responses;
    - the file system is a tree of named nodes, the [fs] calls of the source
      are functions on it that return a Node error code when they fail;
    - [copy] / [copyDir] / [write] and the body of [init] thread the tree
      and the console through explicit state passing. *)

From Stdlib Require Import List String Ascii NArith Bool Arith Lia.
Import ListNotations.
Local Open Scope list_scope.

(* ================================================================== *)
(** * Strings *)

(** A JS string: its UTF-16 code units. *)
Definition jsstring := list N.

(** An ASCII literal as a JS string. *)
Definition str (s : string) : jsstring :=
  map N_of_ascii (list_ascii_of_string s).
Arguments str s%_string.

Fixpoint jseqb (a b : jsstring) : bool :=
  match a, b with
  | [], [] => true
  | x :: a', y :: b' => N.eqb x y && jseqb a' b'
  | _, _ => false
  end.

(** ECMAScript WhiteSpace and LineTerminator code points: what
    [String.prototype.trim] removes. *)
Definition is_whitespace (c : N) : bool :=
  existsb (N.eqb c)
    [0x09; 0x0A; 0x0B; 0x0C; 0x0D; 0x20; 0xA0; 0x1680;
     0x2000; 0x2001; 0x2002; 0x2003; 0x2004; 0x2005; 0x2006; 0x2007;
     0x2008; 0x2009; 0x200A; 0x2028; 0x2029; 0x202F; 0x205F; 0x3000;
     0xFEFF]%N.

Definition slash : N := 0x2F%N.
Definition is_slash (c : N) : bool := N.eqb c slash.

Fixpoint dropWhile (p : N -> bool) (s : jsstring) : jsstring :=
  match s with
  | [] => []
  | c :: r => if p c then dropWhile p r else s
  end.

Definition dropWhileEnd (p : N -> bool) (s : jsstring) : jsstring :=
  rev (dropWhile p (rev s)).

(** [s.trim()] *)
Definition trim (s : jsstring) : jsstring :=
  dropWhileEnd is_whitespace (dropWhile is_whitespace s).

(** [s.replace(/\/+$/g, '')]: the pattern is anchored at the end of the
    input, so the only match is the maximal run of slashes that ends it. *)
Definition replace_trailing_slashes (s : jsstring) : jsstring :=
  dropWhileEnd is_slash s.

(** [formatTargetDir(targetDir)]: [targetDir?.trim().replace(/\/+$/g, '')];
    [None] is [undefined], which [?.] passes through. *)
Definition formatTargetDir (targetDir : option jsstring) : option jsstring :=
  match targetDir with
  | None => None
  | Some s => Some (replace_trailing_slashes (trim s))
  end.

(** Truthiness of a string or [undefined]. *)
Definition truthy_str (s : option jsstring) : bool :=
  match s with
  | Some (_ :: _) => true
  | _ => false
  end.

(** [a || b] for [a] a string or [undefined] and [b] a string. *)
Definition or_str (a : option jsstring) (b : jsstring) : jsstring :=
  match a with
  | Some (c :: r) => c :: r
  | _ => b
  end.

(* ================================================================== *)
(** * The catalog *)

(** The chalk colours the catalog names.  Styling has no effect on
    behaviour: a styled string is kept as the colour and the text. *)
Inductive chalk := Green | Blue | Yellow | Cyan.

Record Variant := mkVariant {
  v_name : jsstring;
  v_display : jsstring;
  v_color : chalk
}.

(** [variants] is optional in the source ([f.variants?.map],
    [framework.variants ? ...]): [None] is a framework object without the
    property. *)
Record Framework := mkFramework {
  f_name : jsstring;
  f_display : jsstring;
  f_color : chalk;
  f_variants : option (list Variant)
}.

Definition vue : Framework :=
  mkFramework (str "vue") (str "Vue") Green
    (Some [ mkVariant (str "vue-ts") (str "TypeScript") Blue;
            mkVariant (str "vue") (str "JavaScript") Yellow ]).

Definition react : Framework :=
  mkFramework (str "react") (str "React") Cyan
    (Some [ mkVariant (str "react-ts") (str "TypeScript") Blue;
            mkVariant (str "react-swc-ts") (str "TypeScript + SWC") Blue;
            mkVariant (str "react") (str "JavaScript") Yellow;
            mkVariant (str "react-swc") (str "JavaScript + SWC") Yellow ]).

Definition FRAMEWORKS : list Framework := [vue; react].

(** [a.concat(b)] where [b] is [f.variants?.map(v => v.name)]: an array is
    appended element by element, [undefined] is appended as one element.
    Elements are [Some name] or [None] for [undefined]. *)
Definition concat_names (a : list (option jsstring))
    (b : option (list jsstring)) : list (option jsstring) :=
  match b with
  | Some names => a ++ map Some names
  | None => a ++ [None]
  end.

Definition templates_of (frameworks : list Framework) : list (option jsstring) :=
  fold_left concat_names
    (map (fun f => option_map (map v_name) (f_variants f)) frameworks) [].

Definition TEMPLATES : list (option jsstring) := templates_of FRAMEWORKS.

Definition defaultTargetDir : jsstring := str "vite-project".

(* ================================================================== *)
(** * Command-line values *)

(** What minimist stores under a flag: nothing, a string, or another value
    (a number for a numeric-looking argument, [true] for a bare flag, an
    array for a repeated one).  A non-string value takes part in the
    program only through its truthiness and its string rendering, so that is
    what [AOther] records. *)
Inductive argval :=
| AUndefined
| AString (s : jsstring)
| AOther (truthy : bool) (text : jsstring).

Definition truthy (a : argval) : bool :=
  match a with
  | AUndefined => false
  | AString s => match s with [] => false | _ => true end
  | AOther b _ => b
  end.

(** [a || b] *)
Definition js_or (a b : argval) : argval := if truthy a then a else b.

(** String conversion inside a template literal. *)
Definition to_text (a : argval) : jsstring :=
  match a with
  | AUndefined => str "undefined"
  | AString s => s
  | AOther _ t => t
  end.

(** [argv]: [_] holds strings only ([string: ['_']]); [h]/[help] and
    [t]/[template] are aliases, each kept as its own property. *)
Record Argv := mkArgv {
  positional : list jsstring;
  arg_template : argval;
  arg_t : argval;
  arg_help : argval
}.

(** [TEMPLATES.includes(x)]: a non-string value equals no string, and only
    [undefined] equals [undefined]. *)
Definition includes (l : list (option jsstring)) (x : argval) : bool :=
  match x with
  | AUndefined => existsb (fun e => match e with None => true | Some _ => false end) l
  | AString s => existsb (fun e => match e with Some n => jseqb n s | None => false end) l
  | AOther _ _ => false
  end.

(* ================================================================== *)
(** * Errors and results *)

(** Node error codes of the file-system calls. *)
Inductive errcode := ENOENT | ENOTDIR | EISDIR | EEXIST.

Definition path := list jsstring.

(** A thrown JS value: [new Error(message)], the [TypeError] of
    [path.join] on a non-string argument, or a system error of [fs]. *)
Inductive jserror :=
| Error (message : jsstring)
| TypeError (message : jsstring)
| SystemError (code : errcode) (syscall : jsstring) (p : path).

(** A call that returns a value or throws. *)
Inductive result (A : Type) :=
| Ok (a : A)
| Throw (e : jserror).
Arguments Ok {A} a.
Arguments Throw {A} e.

Definition bind {A B} (r : result A) (k : A -> result B) : result B :=
  match r with
  | Ok a => k a
  | Throw e => Throw e
  end.

(* ================================================================== *)
(** * The question loop of the prompts package *)

(** [prompts] is a dependency of the program, not part of it.  What
    follows is the behaviour of its question loop that [init] relies on:
    questions are taken in order, a question whose [type] is falsy is
    skipped, a [type] or [choices] given as a function is applied to the
    answer of the last question that was shown, and an abort goes to
    [onCancel]. *)

(** The values an answer can take in this program. *)
Inductive jsval :=
| JUndefined
| JStr (s : jsstring)
| JFramework (f : Framework).

(** The two prompt types the program uses; a falsy [type] is [None]. *)
Inductive qtype := TText | TSelect.

Record choice := mkChoice {
  c_title : chalk * jsstring;
  c_value : jsval
}.

(** One question specification.  [type] and [choices] may be functions of
    the previous answer (a constant is a function that ignores it);
    [onState] is the live-update callback, acting on the variables of the
    caller it closes over (type [S]). *)
Record question (S : Type) := mkQuestion {
  q_type : jsval -> option qtype;
  q_name : jsstring;
  q_message : jsstring;
  q_initial : jsstring;
  q_choices : jsval -> list choice;
  q_onState : jsstring -> S -> S
}.
Arguments mkQuestion {S}.
Arguments q_type {S}.
Arguments q_name {S}.
Arguments q_message {S}.
Arguments q_initial {S}.
Arguments q_choices {S}.
Arguments q_onState {S}.

(** What the user does at one question: the values typed on the way
    ([r_typed]) and the text at the end ([r_text]) for a text prompt, the
    row under the cursor ([r_pick]) for a select prompt, and whether the
    prompt ends by an abort (Ctrl-C, Escape) rather than by Enter. *)
Record response := mkResponse {
  r_typed : list jsstring;
  r_text : jsstring;
  r_pick : nat;
  r_abort : bool
}.

(** The user: a response for each question, by name. *)
Definition user := jsstring -> response.

Definition answers := list (jsstring * jsval).

(** [answers[name]] *)
Fixpoint get (a : answers) (name : jsstring) : jsval :=
  match a with
  | [] => JUndefined
  | (k, v) :: r => if jseqb k name then v else get r name
  end.

(** [answers[name] = v] *)
Fixpoint set (a : answers) (name : jsstring) (v : jsval) : answers :=
  match a with
  | [] => [(name, v)]
  | (k, w) :: r => if jseqb k name then (k, v) :: r else (k, w) :: set r name v
  end.

(** Where the loop stands: the variables of the caller, the names of the
    questions shown so far, the previous answer and the answers object. *)
Record loop_state (S : Type) := mkLoop {
  l_vars : S;
  l_asked : list jsstring;
  l_prev : jsval;
  l_answers : answers
}.
Arguments mkLoop {S}.
Arguments l_vars {S}.
Arguments l_asked {S}.
Arguments l_prev {S}.
Arguments l_answers {S}.

(** A text prompt submits and aborts with [value || initial], and fires a
    state event for every value typed and for that last value. *)
Definition text_value {S} (q : question S) (r : response) : jsstring :=
  match r_text r with
  | [] => q_initial q
  | c :: t => c :: t
  end.

Definition fire_states {S} (q : question S) (r : response) (vars : S) : S :=
  fold_left (fun v s => q_onState q s v) (r_typed r ++ [text_value q r]) vars.

(** A select prompt yields [(choices[cursor] || {}).value]. *)
Definition select_value (choices : list choice) (cursor : nat) : jsval :=
  match nth_error choices cursor with
  | Some c => c_value c
  | None => JUndefined
  end.

(** [prompts(questions, { onCancel })].  For each question in order: its
    [type] is evaluated on the previous answer and a falsy type skips the
    question (the previous answer stays what it was); otherwise the
    question is shown.  An abort calls [onCancel]: if it throws, the loop
    rejects with what it threw; if it returns, the loop stops with the
    answers so far unless it returned [true].  [onSubmit] is the default
    no-op. *)
Fixpoint prompts_loop {S} (questions : list (question S))
    (onCancel : result bool) (u : user) (st : loop_state S)
    : loop_state S * result answers :=
  match questions with
  | [] => (st, Ok (l_answers st))
  | q :: rest =>
    match q_type q (l_prev st) with
    | None => prompts_loop rest onCancel u st
    | Some ty =>
      let r := u (q_name q) in
      let asked := l_asked st ++ [q_name q] in
      let vars := match ty with
                  | TText => fire_states q r (l_vars st)
                  | TSelect => l_vars st
                  end in
      if r_abort r then
        let st' := mkLoop vars asked (l_prev st) (l_answers st) in
        match onCancel with
        | Throw e => (st', Throw e)
        | Ok true => prompts_loop rest onCancel u st'
        | Ok false => (st', Ok (l_answers st))
        end
      else
        let answer := match ty with
                      | TText => JStr (text_value q r)
                      | TSelect => select_value (q_choices q (l_prev st)) (r_pick r)
                      end in
        prompts_loop rest onCancel u
          (mkLoop vars asked answer (set (l_answers st) (q_name q) answer))
    end
  end.

Definition prompts {S} (questions : list (question S)) (onCancel : result bool)
    (u : user) (vars : S) : loop_state S * result answers :=
  prompts_loop questions onCancel u (mkLoop vars [] JUndefined []).

(* ------------------------------------------------------------------ *)
(** ** The three questions of [init] *)

(** Truthiness of an answer value. *)
Definition truthy_val (v : jsval) : bool :=
  match v with
  | JUndefined => false
  | JStr [] => false
  | JStr (_ :: _) => true
  | JFramework _ => true
  end.

(** [framework.variants], for whatever the previous answer is: a string
    has no such property. *)
Definition variants_of (v : jsval) : option (list Variant) :=
  match v with
  | JFramework f => f_variants f
  | _ => None
  end.

(** [display || name] *)
Definition label (display name : jsstring) : jsstring :=
  match display with
  | [] => name
  | _ => display
  end.

Definition projectName_question (argTargetDir : option jsstring)
    : question jsstring :=
  mkQuestion
    (fun _ => if truthy_str argTargetDir then None else Some TText)
    (str "projectName")
    (str "Project name:")
    defaultTargetDir
    (fun _ => [])
    (fun value _ => or_str (formatTargetDir (Some value)) defaultTargetDir).

Definition framework_question (frameworks : list Framework)
    (argTemplate : argval) : question jsstring :=
  mkQuestion
    (fun _ => if truthy argTemplate && includes (templates_of frameworks) argTemplate
              then None else Some TSelect)
    (str "framework")
    (str "Select a framework:")
    []
    (fun _ => map (fun framework =>
                    mkChoice (f_color framework,
                              label (f_display framework) (f_name framework))
                             (JFramework framework))
                  frameworks)
    (fun _ vars => vars).

(** [choices] of the variant question is only evaluated when the question
    is shown, that is when [framework.variants] is an array. *)
Definition variant_question : question jsstring :=
  mkQuestion
    (fun framework =>
       if truthy_val framework
       then match variants_of framework with
            | Some _ => Some TSelect
            | None => None
            end
       else None)
    (str "variant")
    (str "Select a variant:")
    []
    (fun framework =>
       match variants_of framework with
       | Some vs => map (fun variant =>
                          mkChoice (v_color variant,
                                    label (v_display variant) (v_name variant))
                                   (JStr (v_name variant)))
                        vs
       | None => []
       end)
    (fun _ vars => vars).

(** The cross mark of the cancel message, U+2716. *)
Definition cancel_message : jsstring := (0x2716%N :: str " Operation cancelled").

(** [onCancel: () => { throw new Error(...) }] *)
Definition onCancel : result bool := Throw (Error cancel_message).

Definition questions (frameworks : list Framework)
    (argTargetDir : option jsstring) (argTemplate : argval)
    : list (question jsstring) :=
  [ projectName_question argTargetDir;
    framework_question frameworks argTemplate;
    variant_question ].

(* ================================================================== *)
(** * Paths (POSIX) *)

(** An absolute, normalised path is the list of its components; [[]] is
    the root directory. *)
Module Path.

(** The pieces of a string between slashes. *)
Fixpoint split_on_slash (s cur : jsstring) : list jsstring :=
  match s with
  | [] => [rev cur]
  | c :: r => if is_slash c then rev cur :: split_on_slash r []
              else split_on_slash r (c :: cur)
  end.

Definition segments (s : jsstring) : list jsstring := split_on_slash s [].

(** Normalisation, one segment at a time: empty and [.] segments vanish,
    [..] drops the last component (and stays at the root). *)
Definition walk (p : path) (seg : jsstring) : path :=
  if jseqb seg [] || jseqb seg (str ".") then p
  else if jseqb seg (str "..") then removelast p
  else p ++ [seg].

(** [path.join(base, ...args)] with [base] absolute and normalised. *)
Definition join (base : path) (args : list jsstring) : path :=
  fold_left (fun p a => fold_left walk (segments a) p) args base.

(** [path.resolve(base, ...args)]: as [join], but an argument that starts
    with a slash starts again from the root. *)
Definition resolve (base : path) (args : list jsstring) : path :=
  fold_left (fun p a =>
               match a with
               | c :: _ => if is_slash c then fold_left walk (segments a) []
                           else fold_left walk (segments a) p
               | [] => p
               end) args base.

(** The components joined by slashes. *)
Fixpoint intercalate (l : list jsstring) : jsstring :=
  match l with
  | [] => []
  | [a] => a
  | a :: r => a ++ slash :: intercalate r
  end.

(** The string of an absolute path. *)
Definition render (p : path) : jsstring := slash :: intercalate p.

Fixpoint strip_common (a b : path) : path * path :=
  match a, b with
  | x :: a', y :: b' => if jseqb x y then strip_common a' b' else (a, b)
  | _, _ => (a, b)
  end.

(** [path.relative(from, to)] *)
Definition relative (from to : path) : jsstring :=
  let '(up, down) := strip_common from to in
  intercalate (map (fun _ => str "..") up ++ down).

End Path.

(* ================================================================== *)
(** * The file system *)

(** A file with its bytes, or a directory with its entries in the order
    [readdir] lists them.  Symbolic links and permissions are not
    modelled. *)
#[warnings="-register-all"]
Inductive node :=
| File (data : list N)
| Dir (entries : list (jsstring * node)).

Fixpoint find_entry (es : list (jsstring * node)) (name : jsstring) : option node :=
  match es with
  | [] => None
  | (k, c) :: r => if jseqb k name then Some c else find_entry r name
  end.

(** Replace the entry of that name, or add it at the end. *)
Fixpoint set_entry (es : list (jsstring * node)) (name : jsstring) (c : node)
    : list (jsstring * node) :=
  match es with
  | [] => [(name, c)]
  | (k, d) :: r => if jseqb k name then (k, c) :: r else (k, d) :: set_entry r name c
  end.

(** The node at a path. *)
Fixpoint lookup (t : node) (p : path) : option node :=
  match p with
  | [] => Some t
  | c :: p' =>
    match t with
    | File _ => None
    | Dir es => match find_entry es c with
                | Some ch => lookup ch p'
                | None => None
                end
    end
  end.

(** The code of the error a call gets for a path that leads to nothing:
    [ENOTDIR] when the path runs through a file, [ENOENT] when a name on it
    is missing from its directory. *)
Fixpoint missing_code (t : node) (p : path) : errcode :=
  match p with
  | [] => ENOENT
  | c :: p' =>
    match t with
    | File _ => ENOTDIR
    | Dir es => match find_entry es c with
                | Some ch => missing_code ch p'
                | None => ENOENT
                end
    end
  end.

Module Fs.

(** [fs.existsSync(p)] *)
Definition existsSync (fs : node) (p : path) : bool :=
  match lookup fs p with
  | Some _ => true
  | None => false
  end.

(** [fs.statSync(p).isDirectory()] *)
Definition statSync (fs : node) (p : path) : result bool :=
  match lookup fs p with
  | Some (Dir _) => Ok true
  | Some (File _) => Ok false
  | None => Throw (SystemError (missing_code fs p) (str "stat") p)
  end.

(** [fs.readdirSync(p)] *)
Definition readdirSync (fs : node) (p : path) : result (list jsstring) :=
  match lookup fs p with
  | Some (Dir es) => Ok (map fst es)
  | Some (File _) => Throw (SystemError ENOTDIR (str "scandir") p)
  | None => Throw (SystemError (missing_code fs p) (str "scandir") p)
  end.

(** Directory creation below node [t] along [rest]; [whole] is the path
    of the call, for the error. *)
Fixpoint mkdir_rec (whole : path) (t : node) (rest : path) : result node :=
  match rest with
  | [] => match t with
          | Dir _ => Ok t
          | File _ => Throw (SystemError EEXIST (str "mkdir") whole)
          end
  | c :: rest' =>
    match t with
    | File _ => Throw (SystemError ENOTDIR (str "mkdir") whole)
    | Dir es =>
      match find_entry es c with
      | Some ch => bind (mkdir_rec whole ch rest')
                        (fun ch' => Ok (Dir (set_entry es c ch')))
      | None => bind (mkdir_rec whole (Dir []) rest')
                     (fun ch' => Ok (Dir (set_entry es c ch')))
      end
    end
  end.

(** [fs.mkdirSync(p, { recursive: true })]: creates every missing
    directory on the way, and is silent when [p] is a directory already. *)
Definition mkdirSync (fs : node) (p : path) : result node :=
  mkdir_rec p fs p.

(** Storing [data] in the file at [rest] below [t]: the parent must be a
    directory, an existing file is overwritten. *)
Fixpoint write_rec (sys : jsstring) (whole : path) (t : node) (rest : path)
    (data : list N) : result node :=
  match rest with
  | [] => match t with
          | File _ => Ok (File data)
          | Dir _ => Throw (SystemError EISDIR sys whole)
          end
  | c :: rest' =>
    match t with
    | File _ => Throw (SystemError ENOTDIR sys whole)
    | Dir es =>
      match find_entry es c with
      | Some ch => bind (write_rec sys whole ch rest' data)
                        (fun ch' => Ok (Dir (set_entry es c ch')))
      | None => match rest' with
                | [] => Ok (Dir (set_entry es c (File data)))
                | _ :: _ => Throw (SystemError ENOENT sys whole)
                end
      end
    end
  end.

(** [fs.writeFileSync(p, data)] *)
Definition writeFileSync (fs : node) (p : path) (data : list N) : result node :=
  write_rec (str "open") p fs p data.

(** [fs.copyFileSync(src, dest)] *)
Definition copyFileSync (fs : node) (src dest : path) : result node :=
  match lookup fs src with
  | Some (File data) => write_rec (str "copyfile") dest fs dest data
  | Some (Dir _) => Throw (SystemError EISDIR (str "copyfile") src)
  | None => Throw (SystemError (missing_code fs src) (str "copyfile") src)
  end.

End Fs.

(* ================================================================== *)
(** * Copying the template *)

(** How a procedure on the file system ends: normally, by a throw (with
    the tree as it is at that point), or with the recursion budget of the
    model used up. *)
Inductive outcome :=
| Done (fs : node)
| Failed (e : jserror) (fs : node)
| OutOfFuel.

(** A file-system call that changes the tree. *)
Definition effect (r : result node) (fs : node) (k : node -> outcome) : outcome :=
  match r with
  | Ok fs' => k fs'
  | Throw e => Failed e fs
  end.

(** A file-system call that reads the tree. *)
Definition reading {A} (r : result A) (fs : node) (k : A -> outcome) : outcome :=
  match r with
  | Ok a => k a
  | Throw e => Failed e fs
  end.

(** [for (const file of files) body(file)] *)
Fixpoint for_of (files : list jsstring) (body : jsstring -> node -> outcome)
    (fs : node) : outcome :=
  match files with
  | [] => Done fs
  | file :: rest =>
    match body file fs with
    | Done fs' => for_of rest body fs'
    | o => o
    end
  end.

(** [copyDir(srcDir, destDir)], over the [copy] it calls. *)
Definition copyDir_with (copy : path -> path -> node -> outcome)
    (srcDir destDir : path) (fs : node) : outcome :=
  effect (Fs.mkdirSync fs destDir) fs (fun fs1 =>
  reading (Fs.readdirSync fs1 srcDir) fs1 (fun files =>
  for_of files
    (fun file =>
       let srcFile := Path.resolve srcDir [file] in
       let destFile := Path.resolve destDir [file] in
       copy srcFile destFile)
    fs1)).

(** [copy(src, dest)].  The source recurses as deep as the tree under
    [src]; [fuel] bounds that depth. *)
Fixpoint copy (fuel : nat) (src dest : path) (fs : node) : outcome :=
  match fuel with
  | O => OutOfFuel
  | S fuel' =>
    reading (Fs.statSync fs src) fs (fun isDirectory =>
    if isDirectory then copyDir_with (copy fuel') src dest fs
    else effect (Fs.copyFileSync fs src dest) fs Done)
  end.

Definition copyDir (fuel : nat) : path -> path -> node -> outcome :=
  copyDir_with (copy fuel).

(** The names every object inherits from [Object.prototype]: looking one
    of them up in the literal [renameFiles] yields a function or an object,
    not [undefined]. *)
Definition object_prototype_names : list jsstring :=
  [ str "constructor"; str "__defineGetter__"; str "__defineSetter__";
    str "hasOwnProperty"; str "__lookupGetter__"; str "__lookupSetter__";
    str "isPrototypeOf"; str "propertyIsEnumerable"; str "toString";
    str "valueOf"; str "__proto__"; str "toLocaleString" ].

(** A property read: [undefined], a string, or some other object. *)
Inductive property :=
| PUndefined
| PString (s : jsstring)
| PObject.

(** [renameFiles[file]] for [renameFiles = { _gitignore: '.gitignore' }] *)
Definition renameFiles (file : jsstring) : property :=
  if jseqb file (str "_gitignore") then PString (str ".gitignore")
  else if existsb (jseqb file) object_prototype_names then PObject
  else PUndefined.

(** [path.join(root, renameFiles[file] ?? file)]: [path.join] throws a
    [TypeError] on an argument that is not a string. *)
Definition targetPath_of (root : path) (file : jsstring) : result path :=
  match renameFiles file with
  | PUndefined => Ok (Path.join root [file])
  | PString s => Ok (Path.join root [s])
  | PObject => Throw (TypeError (str "ERR_INVALID_ARG_TYPE"))
  end.

(** What [write] gets as [content]: nothing ([undefined]), a string, or a
    Buffer. *)
Inductive content :=
| NoContent
| Text (s : jsstring)
| Bytes (data : list N).

(** [if (content)]: of these only [undefined] and the empty string are
    falsy; a Buffer is an object, truthy also when it is empty. *)
Definition truthy_content (c : content) : bool :=
  match c with
  | NoContent => false
  | Text [] => false
  | Text (_ :: _) => true
  | Bytes _ => true
  end.

(** The UTF-8 bytes of a code point. *)
Definition utf8_of_code_point (c : N) : list N :=
  (if c <? 0x80 then [c]
   else if c <? 0x800 then [0xC0 + c / 0x40; 0x80 + c mod 0x40]
   else if c <? 0x10000
   then [0xE0 + c / 0x1000; 0x80 + (c / 0x40) mod 0x40; 0x80 + c mod 0x40]
   else [0xF0 + c / 0x40000; 0x80 + (c / 0x1000) mod 0x40;
         0x80 + (c / 0x40) mod 0x40; 0x80 + c mod 0x40])%N.

Definition is_high_surrogate (c : N) : bool := ((0xD800 <=? c) && (c <=? 0xDBFF))%N.
Definition is_low_surrogate (c : N) : bool := ((0xDC00 <=? c) && (c <=? 0xDFFF))%N.

(** U+FFFD, which stands in for a surrogate without its partner. *)
Definition replacement : list N := [0xEF; 0xBF; 0xBD]%N.

(** The bytes [writeFileSync] stores for a string: its UTF-8 encoding. *)
Fixpoint utf8 (s : jsstring) : list N :=
  match s with
  | [] => []
  | c :: rest =>
    if is_high_surrogate c then
      match rest with
      | lo :: rest' =>
        if is_low_surrogate lo
        then utf8_of_code_point (0x10000 + (c - 0xD800) * 0x400 + (lo - 0xDC00))%N
             ++ utf8 rest'
        else replacement ++ utf8 rest
      | [] => replacement
      end
    else if is_low_surrogate c then replacement ++ utf8 rest
    else utf8_of_code_point c ++ utf8 rest
  end.

(** The bytes [writeFileSync(path, content)] stores. *)
Definition bytes_of (c : content) : list N :=
  match c with
  | NoContent => []
  | Text s => utf8 s
  | Bytes data => data
  end.

(** [write(file, content)], with [root] and [templateDir] of the
    enclosing [init]. *)
Definition write (fuel : nat) (root templateDir : path) (file : jsstring)
    (c : content) (fs : node) : outcome :=
  reading (targetPath_of root file) fs (fun targetPath =>
  if truthy_content c
  then effect (Fs.writeFileSync fs targetPath (bytes_of c)) fs Done
  else copy fuel (Path.join templateDir [file]) targetPath fs).

(** [if (!fs.existsSync(root)) { fs.mkdirSync(root, { recursive: true }); }] *)
Definition ensure_root (fs : node) (root : path) : result node :=
  if negb (Fs.existsSync fs root) then Fs.mkdirSync fs root else Ok fs.

(** The materialisation at the end of [init]: the root is created when it
    does not exist, then every entry of the template directory is written
    ([const files = fs.readdirSync(templateDir); for (const file of files)
    write(file)]). *)
Definition materialize (fuel : nat) (root templateDir : path) (fs : node) : outcome :=
  effect (ensure_root fs root) fs (fun fs1 =>
  reading (Fs.readdirSync fs1 templateDir) fs1 (fun files =>
  for_of files (fun file => write fuel root templateDir file NoContent) fs1)).

(* ================================================================== *)
(** * [init] and the top level *)

(** What the process prints: [console.log] lines and [console.error]
    values. *)
Inductive line :=
| Log (text : jsstring)
| ConsoleError (e : jserror).

(** How an async function settles; [Unfinished] is the model's
    [OutOfFuel]. *)
Inductive completion :=
| Returned
| Thrown (e : jserror)
| Unfinished.

(** Where the process runs: its working directory, and the file of this
    module ([fileURLToPath(import.meta.url)]). *)
Record Env := mkEnv {
  cwd : path;
  module_file : path
}.

Record world := mkWorld {
  console : list line;
  files : node;
  settled : completion
}.

(** The usage text, without the chalk colours of its template names. *)
Definition helpMessage : jsstring := str
"Usage: create-vite [OPTION]... [DIRECTORY]

Create a new Vite project in JavaScript or TypeScript.
With no arguments, start the CLI in interactive mode.

Options:
  -t, --template NAME        use a specific template

Available templates:
vanilla-ts     vanilla
vue-ts         vue
react-ts       react
react-swc-ts   react-swc
preact-ts      preact
lit-ts         lit
svelte-ts      svelte
solid-ts       solid
qwik-ts        qwik".

Definition space : N := 0x20%N.
Definition quote : N := 0x22%N.

(** How [console.log] prints an answer passed as a later argument.  The
    program only prints [variant], a string or [undefined]. *)
Definition show_val (v : jsval) : jsstring :=
  match v with
  | JUndefined => str "undefined"
  | JStr s => s
  | JFramework _ => str "[object Object]"
  end.

(** [variant || argTemplate] *)
Definition template_of (variant : jsval) (argTemplate : argval) : argval :=
  match variant with
  | JStr (c :: s) => AString (c :: s)
  | JFramework _ => AOther true (str "[object Object]")
  | _ => argTemplate
  end.

(** [argv.template || argv.t] *)
Definition argTemplate_of (argv : Argv) : argval :=
  js_or (arg_template argv) (arg_t argv).

(** The template of a run, from the answers of its prompt phase:
    [const { framework, variant } = result; template = variant || argTemplate]. *)
Definition template_in (argv : Argv) (result : answers) : argval :=
  template_of (get result (str "variant")) (argTemplate_of argv).

(** The directory of the project: [path.join(process.cwd(), targetDir)]. *)
Definition root_of (env : Env) (targetDir : jsstring) : path :=
  Path.join (cwd env) [targetDir].

(** [path.resolve(fileURLToPath(import.meta.url), '../..', `template-${template}`)] *)
Definition templateDir_of (env : Env) (template : argval) : path :=
  Path.resolve (module_file env) [str "../.."; str "template-" ++ to_text template].

(** The closing instructions. *)
Definition done_lines (env : Env) (root : path) : list line :=
  let cdProjectName := Path.relative (cwd env) root in
  [Log (str "
Done. Now run:
")]
  ++ (if list_eq_dec (list_eq_dec N.eq_dec) root (cwd env) then []
      else [Log (str "  cd " ++
                 (if existsb (N.eqb space) cdProjectName
                  then quote :: cdProjectName ++ [quote]
                  else cdProjectName))])
  ++ [Log (str "  npm install"); Log (str "  npm run dev"); Log []].

(** The prompt phase of [init]: the question loop on the variable
    [targetDir] the first question's [onState] assigns. *)
Definition ask (frameworks : list Framework) (argv : Argv) (u : user)
    : loop_state jsstring * result answers :=
  let argTargetDir := formatTargetDir (nth_error (positional argv) 0) in
  let argTemplate := argTemplate_of argv in
  prompts (questions frameworks argTargetDir argTemplate) onCancel u
          (or_str argTargetDir defaultTargetDir).

(** [init()] *)
Definition init (argv : Argv) (env : Env) (u : user) (fuel : nat) (fs : node)
    : world :=
  if truthy (arg_help argv) then mkWorld [Log helpMessage] fs Returned
  else
    let '(st, result) := ask FRAMEWORKS argv u in
    match result with
    | Throw cancelled =>
      let message := match cancelled with
                     | Error m | TypeError m => m
                     | SystemError _ _ _ => []
                     end in
      mkWorld [Log (str "err " ++ message)] fs Returned
    | Ok result =>
      let variant := get result (str "variant") in
      let targetDir := l_vars st in
      let root := root_of env targetDir in
      let template := template_in argv result in
      let templateDir := templateDir_of env template in
      let out :=
        [ Log (str "result " ++ show_val variant ++ space :: targetDir);
          Log (str "
Scaffolding project in " ++ Path.render root ++ str "...") ] in
      match materialize fuel root templateDir fs with
      | Done fs' => mkWorld (out ++ done_lines env root) fs' Returned
      | Failed e fs' => mkWorld out fs' (Thrown e)
      | OutOfFuel => mkWorld out fs Unfinished
      end
    end.

(** The top level: [init().catch((e) => { console.error(e); })].  The
    handler returns normally, so the promise it yields is fulfilled. *)
Definition main (argv : Argv) (env : Env) (u : user) (fuel : nat) (fs : node)
    : world :=
  let w := init argv env u fuel fs in
  match settled w with
  | Thrown e => mkWorld (console w ++ [ConsoleError e]) (files w) Returned
  | _ => w
  end.

(** The exit code of the Node process once the event loop is empty: 0
    unless a rejection was left unhandled, which ends the process with
    code 1.  The program never assigns [process.exitCode] and never calls
    [process.exit]. *)
Definition exit_code (w : world) : option nat :=
  match settled w with
  | Returned => Some 0
  | Thrown _ => Some 1
  | Unfinished => None
  end.

(* ================================================================== *)
(** * Vocabulary of the specification *)

(** ** Strings *)

Definition starts_with (p : N -> bool) (s : jsstring) : bool :=
  match s with
  | c :: _ => p c
  | [] => false
  end.

Definition ends_with (p : N -> bool) (s : jsstring) : bool :=
  starts_with p (rev s).

(** [r] is [s] without the whitespace around it. *)
Definition trimmed_of (s r : jsstring) : Prop :=
  exists l t, s = l ++ r ++ t /\
    forallb is_whitespace l = true /\ forallb is_whitespace t = true /\
    starts_with is_whitespace r = false /\ ends_with is_whitespace r = false.

(** [r] is [s] without the slashes that end it. *)
Definition without_trailing_slashes (s r : jsstring) : Prop :=
  exists sl, s = r ++ sl /\
    forallb is_slash sl = true /\ ends_with is_slash r = false.

(** The candidate target directory of a positional argument, in the words
    of the specification: trimmed, then trailing slashes removed. *)
Definition target_dir_of (s r : jsstring) : Prop :=
  exists m, trimmed_of s m /\ without_trailing_slashes m r.

(** ** Catalog *)

(** Every (framework, variant) pair of a catalog, in order. *)
Definition pairs_of (frameworks : list Framework) : list (Framework * Variant) :=
  flat_map (fun f => match f_variants f with
                     | Some vs => map (pair f) vs
                     | None => []
                     end) frameworks.

(** [fv] is a pair of the catalog whose variant has the id [v]. *)
Definition is_variant_of (v : jsstring) (fv : Framework * Variant) : Prop :=
  In (fst fv) FRAMEWORKS /\
  (exists vs, f_variants (fst fv) = Some vs /\ In (snd fv) vs) /\
  v_name (snd fv) = v.

(** ** Prompt flow *)

(** The template candidate is a known variant id: the test of the
    framework question. *)
Definition known_template (a : argval) : bool :=
  truthy a && includes TEMPLATES a.

(** The question of that name was shown. *)
Definition asked (name : jsstring) (st : loop_state jsstring) : bool :=
  existsb (jseqb name) (l_asked st).

(** The cursor of a select prompt is on one of its rows. *)
Definition on_a_row {A} (rows : list A) (cursor : nat) : bool :=
  Nat.ltb cursor (List.length rows).

(** The rows of the variant question for a framework with these variants. *)
Definition variant_choices (vs : list Variant) : list choice :=
  map (fun variant =>
         mkChoice (v_color variant, label (v_display variant) (v_name variant))
                  (JStr (v_name variant)))
      vs.

(** The question loop of [init] unrolled into a decision table: which
    questions are shown and how the loop ends, case by case.  It is proved
    equal to what [ask] computes ([ask_decision_table]). *)
Definition decision_table (frameworks : list Framework) (argv : Argv) (u : user)
    : list jsstring * result answers :=
  let name_skipped := truthy_str (formatTargetDir (nth_error (positional argv) 0)) in
  let known := truthy (argTemplate_of argv)
               && includes (templates_of frameworks) (argTemplate_of argv) in
  let q1 := projectName_question (formatTargetDir (nth_error (positional argv) 0)) in
  let asked1 := if name_skipped then [] else [str "projectName"] in
  let answers1 := if name_skipped then []
                  else [(str "projectName", JStr (text_value q1 (u (str "projectName"))))] in
  if negb name_skipped && r_abort (u (str "projectName"))
  then ([str "projectName"], Throw (Error cancel_message))
  else if known then (asked1, Ok answers1)
  else if r_abort (u (str "framework"))
  then (asked1 ++ [str "framework"], Throw (Error cancel_message))
  else
    match nth_error frameworks (r_pick (u (str "framework"))) with
    | None => (asked1 ++ [str "framework"],
               Ok (set answers1 (str "framework") JUndefined))
    | Some f =>
      let answers2 := set answers1 (str "framework") (JFramework f) in
      match f_variants f with
      | None => (asked1 ++ [str "framework"], Ok answers2)
      | Some vs =>
        if r_abort (u (str "variant"))
        then (asked1 ++ [str "framework"; str "variant"], Throw (Error cancel_message))
        else (asked1 ++ [str "framework"; str "variant"],
              Ok (set answers2 (str "variant")
                      (select_value (variant_choices vs) (r_pick (u (str "variant"))))))
      end
    end.

(** The working target directory once the question loop is over. *)
Definition targetDir_after (argv : Argv) (u : user) : jsstring :=
  let argTargetDir := formatTargetDir (nth_error (positional argv) 0) in
  if truthy_str argTargetDir then or_str argTargetDir defaultTargetDir
  else fire_states (projectName_question argTargetDir) (u (str "projectName"))
                   (or_str argTargetDir defaultTargetDir).

(** ** Example inputs *)

(** [--template vue-ts], no positional argument. *)
Definition argv_vue_ts : Argv :=
  mkArgv [] (AString (str "vue-ts")) AUndefined AUndefined.

(** [my-app/ --template bogus-name] *)
Definition argv_bogus : Argv :=
  mkArgv [str "my-app/"] (AString (str "bogus-name")) AUndefined AUndefined.

(** No arguments at all. *)
Definition argv_none : Argv := mkArgv [] AUndefined AUndefined AUndefined.

(** A user who accepts the default text and takes the second row of every
    menu. *)
Definition second_row : user := fun _ => mkResponse [] [] 1 false.

(** A user who aborts whatever is shown. *)
Definition aborting : user := fun _ => mkResponse [] [] 0 true.

(** A user who accepts the default text and takes the first row of every
    menu. *)
Definition first_row : user := fun _ => mkResponse [] [] 0 false.

(** A catalog with a framework that has no [variants]. *)
Definition bare_catalog : list Framework :=
  [mkFramework (str "vanilla") (str "Vanilla") Yellow None; vue].

(** The tool installed under [/opt/vite-cli], run from [/home/u]. *)
Definition env_example : Env :=
  mkEnv [str "home"; str "u"]
        [str "opt"; str "vite-cli"; str "src"; str "index.js"].

(** A template with a top-level [_gitignore], a nested directory, and a
    [_gitignore] inside the nested directory. *)
Definition template_example : node :=
  Dir [ (str "_gitignore", File [110; 111; 100; 101]%N);
        (str "src", Dir [ (str "main.js", File [49; 59]%N);
                          (str "_gitignore", File [42]%N);
                          (str "assets", Dir [ (str "logo.svg", File [60; 62]%N) ]) ]);
        (str "index.html", File [60; 104; 62]%N) ].

(** A file system with that template as [template-vue-ts], and a project
    directory [/home/u/my-app] that already holds a README and an older
    [index.html]. *)
Definition fs_example : node :=
  Dir [ (str "opt",
         Dir [ (str "vite-cli",
                Dir [ (str "src", Dir [ (str "index.js", File [47; 47]%N) ]);
                      (str "template-vue-ts", template_example) ]) ]);
        (str "home",
         Dir [ (str "u",
                Dir [ (str "my-app",
                       Dir [ (str "README.md", File [35]%N);
                             (str "index.html", File [111; 108; 100]%N) ]) ]) ]) ].

(** A template with a top-level file named [constructor], a name every
    object inherits from [Object.prototype], in the order [readdirSync]
    lists it. *)
Definition template_inherited : node :=
  Dir [ (str "_gitignore", File [110; 111; 100; 101]%N);
        (str "constructor", File [99]%N);
        (str "index.html", File [60; 104; 62]%N);
        (str "src", Dir [ (str "main.js", File [49; 59]%N) ]) ].

(** A file system with that template as [template-vue-ts], and an empty
    [/home/u]. *)
Definition fs_inherited : node :=
  Dir [ (str "opt",
         Dir [ (str "vite-cli",
                Dir [ (str "src", Dir [ (str "index.js", File [47; 47]%N) ]);
                      (str "template-vue-ts", template_inherited) ]) ]);
        (str "home", Dir [ (str "u", Dir []) ]) ].

(** ** File system *)

(** [p] is a prefix of [q] (possibly [q] itself). *)
Fixpoint is_prefix (p q : path) : bool :=
  match p, q with
  | [], _ => true
  | x :: p', y :: q' => jseqb x y && is_prefix p' q'
  | _ :: _, [] => false
  end.

(** Neither path lies on the other. *)
Definition apart (p q : path) : bool :=
  negb (is_prefix p q) && negb (is_prefix q p).

(** A name [readdir] can list: a single, non-empty path component other
    than [.] and [..]. *)
Definition valid_name (n : jsstring) : bool :=
  negb (jseqb n []) && negb (jseqb n (str ".")) && negb (jseqb n (str ".."))
  && negb (existsb is_slash n).

Fixpoint distinct (l : list jsstring) : bool :=
  match l with
  | [] => true
  | n :: r => negb (existsb (jseqb n) r) && distinct r
  end.

(** A tree as a file system holds it: in every directory the names are
    valid and pairwise distinct. *)
Fixpoint wfb (t : node) : bool :=
  match t with
  | File _ => true
  | Dir es => distinct (map fst es) && forallb valid_name (map fst es)
              && forallb (fun e => wfb (snd e)) es
  end.

(** The depth of the recursion of [copy] on a tree. *)
Fixpoint height (t : node) : nat :=
  match t with
  | File _ => 0
  | Dir es => S (list_max (map (fun e => height (snd e)) es))
  end.

(** Copying [t] onto what is at the destination ([d]) meets no conflict:
    no directory has to replace a file, no file a directory. *)
Fixpoint compatb (t : node) (d : option node) : bool :=
  match t, d with
  | _, None => true
  | File _, Some (File _) => true
  | File _, Some (Dir _) => false
  | Dir _, Some (File _) => false
  | Dir es, Some (Dir des) =>
    forallb (fun e => compatb (snd e) (find_entry des (fst e))) es
  end.

(** [mkdirSync(p, { recursive: true })] can succeed below [t]: no file is
    in the way. *)
Fixpoint creatable (t : node) (p : path) : bool :=
  match t with
  | File _ => false
  | Dir es =>
    match p with
    | [] => true
    | c :: p' => match find_entry es c with
                 | Some ch => creatable ch p'
                 | None => true
                 end
    end
  end.

(** The name an entry of the template directory gets in the project. *)
Definition renamed (file : jsstring) : jsstring :=
  if jseqb file (str "_gitignore") then str ".gitignore" else file.

Definition inherited (file : jsstring) : bool :=
  existsb (jseqb file) object_prototype_names.

(** What the theorems on materialisation ask of the scene: the template
    directory [Dir es] is a well-formed tree, it and the project root lie
    apart, nothing on the way to the root is a file, no top-level entry
    meets something of the other kind in the project, no top-level name is
    an inherited property name of [renameFiles], and the template does not
    hold both [_gitignore] and [.gitignore] at its top. *)
Definition copyable (fs : node) (templateDir root : path)
    (es : list (jsstring * node)) : bool :=
  wfb (Dir es)
  && apart templateDir root
  && creatable fs root
  && forallb (fun e => compatb (snd e) (lookup fs (root ++ [renamed (fst e)]))) es
  && forallb (fun e => negb (inherited (fst e))) es
  && negb (existsb (jseqb (str ".gitignore")) (map fst es)
           && existsb (jseqb (str "_gitignore")) (map fst es)).

(** [q] is the place in the project of an entry of the template. *)
Definition image (es : list (jsstring * node)) (root q : path) : Prop :=
  exists n r, q = root ++ renamed n :: r /\ lookup (Dir es) (n :: r) <> None.

(** What a successful [copy] of the tree [t] to [dest] has done, told by
    lookups before ([fs]) and after ([fs']): nothing changed outside the
    places of [t] under [dest] and the directories above [dest]; those
    directories are directories; every file of [t] is at its place with its
    bytes; every directory of [t] is a directory at its place. *)
Definition copied (t : node) (dest : path) (fs fs' : node) : Prop :=
  (forall q, is_prefix q dest = false ->
             (forall r, q = dest ++ r -> lookup t r = None) ->
             lookup fs' q = lookup fs q) /\
  (forall q, is_prefix q dest = true -> q <> dest ->
             exists es, lookup fs' q = Some (Dir es)) /\
  (forall r data, lookup t r = Some (File data) ->
                  lookup fs' (dest ++ r) = Some (File data)) /\
  (forall r es, lookup t r = Some (Dir es) ->
                exists es', lookup fs' (dest ++ r) = Some (Dir es')).

(** The same for a loop that copies the entries [l] of the directory
    [Dir es] into [dest], the entry [n] under the name [g n]. *)
Definition entries_copied (es : list (jsstring * node)) (g : jsstring -> jsstring)
    (l : list jsstring) (dest : path) (fs fs' : node) : Prop :=
  (forall q, is_prefix q dest = false ->
             (forall n r, In n l -> q = dest ++ g n :: r ->
                          lookup (Dir es) (n :: r) = None) ->
             lookup fs' q = lookup fs q) /\
  (forall q, is_prefix q dest = true -> exists es', lookup fs' q = Some (Dir es')) /\
  (forall n r data, In n l -> lookup (Dir es) (n :: r) = Some (File data) ->
                    lookup fs' (dest ++ g n :: r) = Some (File data)) /\
  (forall n r es', In n l -> lookup (Dir es) (n :: r) = Some (Dir es') ->
                   exists es'', lookup fs' (dest ++ g n :: r) = Some (Dir es'')).

(** What a successful materialisation of the template directory [Dir es]
    into [root] has done: outside the places of the template entries and the
    directories down to the root nothing changed; the root and what is above
    it are directories; every file of the template is at its place with its
    bytes, every directory of the template is a directory at its place. *)
Definition materialized (es : list (jsstring * node)) (root : path)
    (fs fs' : node) : Prop :=
  (forall q, is_prefix q root = false -> ~ image es root q ->
             lookup fs' q = lookup fs q) /\
  (forall q, is_prefix q root = true -> exists es', lookup fs' q = Some (Dir es')) /\
  (forall n r data, lookup (Dir es) (n :: r) = Some (File data) ->
                    lookup fs' (root ++ renamed n :: r) = Some (File data)) /\
  (forall n r es', lookup (Dir es) (n :: r) = Some (Dir es') ->
                   exists es'', lookup fs' (root ++ renamed n :: r) = Some (Dir es'')).

(** The template directory and the project root of the example. *)
Definition templateDir_example : path :=
  [str "opt"; str "vite-cli"; str "template-vue-ts"].

Definition root_example : path := [str "home"; str "u"; str "my-app"].

Definition entries_example : list (jsstring * node) :=
  match template_example with
  | Dir es => es
  | File _ => []
  end.

(** [my-app --template vue-ts] *)
Definition argv_app : Argv :=
  mkArgv [str "my-app"] (AString (str "vue-ts")) AUndefined AUndefined.

(** ** Further vocabulary *)

(** The variant ids of a catalog as [TEMPLATES] lists them, framework by
    framework; a framework without [variants] contributes one [undefined]. *)
Definition listed_ids (frameworks : list Framework) : list (option jsstring) :=
  flat_map (fun f => match f_variants f with
                     | Some vs => map (fun v => Some (v_name v)) vs
                     | None => [None]
                     end) frameworks.

(** The text a text prompt ends with: what was typed, or the default. *)
Definition submitted_name (u : user) : jsstring :=
  match r_text (u (str "projectName")) with
  | [] => defaultTargetDir
  | c :: t => c :: t
  end.

(** A segment that [path.join] keeps as a component or takes as [..]:
    neither empty nor [.]. *)
Definition kept_segment (s : jsstring) : bool :=
  negb (jseqb s [] || jseqb s (str ".")).

Definition is_dir (t : node) : bool :=
  match t with
  | Dir _ => true
  | File _ => false
  end.

(** Whatever exists in [fs] exists in [fs'], and is a file or a directory
    as it was. *)
Definition keeps_kinds (fs fs' : node) : Prop :=
  forall q x, lookup fs q = Some x ->
              exists x', lookup fs' q = Some x' /\ is_dir x' = is_dir x.

(** The tree a procedure leaves, if it ends. *)
Definition final_fs (o : outcome) : option node :=
  match o with
  | Done fs | Failed _ fs => Some fs
  | OutOfFuel => None
  end.

(** Every name in the tree is a name a directory can hold. *)
Fixpoint names_ok (t : node) : bool :=
  match t with
  | File _ => true
  | Dir es => forallb valid_name (map fst es)
              && forallb (fun e => names_ok (snd e)) es
  end.

(** Nothing changed at the paths that lie apart from [root]: neither below
    it nor on the way to it. *)
Definition untouched_outside (root : path) (fs fs' : node) : Prop :=
  forall q, apart root q = true -> lookup fs' q = lookup fs q.

(** The tree [t] is already at [dest]: its files with their bytes, its
    directories as directories. *)
Definition present (t : node) (dest : path) (fs : node) : Prop :=
  (forall r data, lookup t r = Some (File data) ->
                  lookup fs (dest ++ r) = Some (File data)) /\
  (forall r es, lookup t r = Some (Dir es) ->
                exists es', lookup fs (dest ++ r) = Some (Dir es')).

(* ================================================================== *)
(** * Strings *)

Lemma jseqb_eq a b : jseqb a b = true <-> a = b.
Proof.
  revert b; induction a as [|x a IH]; intros [|y b]; simpl; split; intro H;
    try discriminate; try reflexivity.
  - apply andb_true_iff in H as [H1 H2]. apply N.eqb_eq in H1. apply IH in H2. congruence.
  - inversion H; subst. rewrite N.eqb_refl. simpl. now apply IH.
Qed.

Lemma jseqb_refl a : jseqb a a = true.
Proof. now apply jseqb_eq. Qed.

Lemma jseqb_neq a b : jseqb a b = false <-> a <> b.
Proof.
  split; intro H.
  - intro E. apply jseqb_eq in E. congruence.
  - destruct (jseqb a b) eqn:E; [apply jseqb_eq in E; contradiction | reflexivity].
Qed.

Lemma jseqb_sym a b : jseqb a b = jseqb b a.
Proof.
  destruct (jseqb a b) eqn:E; symmetry.
  - apply jseqb_eq in E. subst. apply jseqb_refl.
  - apply jseqb_neq in E. apply jseqb_neq. congruence.
Qed.

Section DropWhile.
Variable p : N -> bool.

Lemma dropWhile_split s :
  exists l, s = l ++ dropWhile p s /\ forallb p l = true /\
            starts_with p (dropWhile p s) = false.
Proof.
  induction s as [|c s (l & E & Hl & Hs)]; simpl.
  - exists []. auto.
  - destruct (p c) eqn:Hc.
    + exists (c :: l). simpl. rewrite Hc, Hl. split; [congruence | auto].
    + exists []. simpl. auto.
Qed.

Lemma dropWhile_app l r :
  forallb p l = true -> starts_with p r = false -> dropWhile p (l ++ r) = r.
Proof.
  induction l as [|c l IH]; simpl; intros Hl Hr.
  - destruct r as [|c r]; simpl in *; [reflexivity | now rewrite Hr].
  - apply andb_true_iff in Hl as [Hc Hl]. rewrite Hc. auto.
Qed.

Lemma dropWhile_all l : forallb p l = true -> dropWhile p l = [].
Proof.
  intro H. rewrite <- (app_nil_r l). now apply dropWhile_app.
Qed.

Lemma forallb_rev l : forallb p (rev l) = forallb p l.
Proof.
  induction l as [|c l IH]; simpl; [reflexivity|].
  rewrite forallb_app, IH. simpl. rewrite andb_true_r. apply andb_comm.
Qed.

Lemma dropWhileEnd_split s :
  exists t, s = dropWhileEnd p s ++ t /\ forallb p t = true /\
            ends_with p (dropWhileEnd p s) = false.
Proof.
  unfold dropWhileEnd, ends_with.
  destruct (dropWhile_split (rev s)) as (l & E & Hl & Hs).
  exists (rev l). rewrite rev_involutive, forallb_rev. repeat split; try assumption.
  rewrite <- rev_app_distr, <- E. now rewrite rev_involutive.
Qed.

Lemma dropWhileEnd_app r t :
  forallb p t = true -> ends_with p r = false -> dropWhileEnd p (r ++ t) = r.
Proof.
  intros Ht Hr. unfold dropWhileEnd. rewrite rev_app_distr, dropWhile_app.
  - apply rev_involutive.
  - now rewrite forallb_rev.
  - exact Hr.
Qed.

Lemma starts_with_dropWhileEnd s :
  starts_with p s = false -> starts_with p (dropWhileEnd p s) = false.
Proof.
  intro H. destruct (dropWhileEnd_split s) as (t & E & _ & _).
  destruct (dropWhileEnd p s) as [|c r]; [reflexivity|].
  rewrite E in H. exact H.
Qed.

End DropWhile.

Lemma trim_spec s : trimmed_of s (trim s).
Proof.
  unfold trim.
  destruct (dropWhile_split is_whitespace s) as (l & E & Hl & Hs).
  destruct (dropWhileEnd_split is_whitespace (dropWhile is_whitespace s))
    as (t & E' & Ht & He).
  exists l, t. repeat split; try assumption.
  - now rewrite <- E'.
  - now apply starts_with_dropWhileEnd.
Qed.

Lemma trim_unique s r : trimmed_of s r -> trim s = r.
Proof.
  intros (l & t & -> & Hl & Ht & Hs & He). unfold trim.
  destruct r as [|c r].
  - simpl. rewrite dropWhile_all; [reflexivity|].
    rewrite forallb_app, Hl, Ht. reflexivity.
  - rewrite dropWhile_app; [|assumption|exact Hs].
    now apply dropWhileEnd_app.
Qed.

Lemma replace_trailing_slashes_spec s :
  without_trailing_slashes s (replace_trailing_slashes s).
Proof.
  destruct (dropWhileEnd_split is_slash s) as (t & E & Ht & He).
  exists t. auto.
Qed.

Lemma replace_trailing_slashes_unique s r :
  without_trailing_slashes s r -> replace_trailing_slashes s = r.
Proof.
  intros (sl & -> & Hsl & He). now apply dropWhileEnd_app.
Qed.

Lemma formatTargetDir_iff s r :
  formatTargetDir (Some s) = Some r <-> target_dir_of s r.
Proof.
  simpl. split.
  - intro H. injection H as <-. exists (trim s). split.
    + apply trim_spec.
    + apply replace_trailing_slashes_spec.
  - intros (m & Hm & Hr). apply trim_unique in Hm. subst m.
    apply replace_trailing_slashes_unique in Hr. now subst r.
Qed.

(* ================================================================== *)
(** * The catalog *)

Lemma in_pairs_of frameworks f v :
  In (f, v) (pairs_of frameworks) <->
  In f frameworks /\ exists vs, f_variants f = Some vs /\ In v vs.
Proof.
  unfold pairs_of. rewrite in_flat_map. split.
  - intros (g & Hg & Hin). destruct (f_variants g) as [vs|] eqn:E; [|contradiction].
    apply in_map_iff in Hin as (w & Hw & Hin). inversion Hw; subst. eauto.
  - intros (Hf & vs & E & Hin). exists f. split; [assumption|]. rewrite E.
    now apply in_map.
Qed.

Lemma NoDup_map_injective {A B} (f : A -> B) (l : list A) :
  NoDup (map f l) -> forall x y, In x l -> In y l -> f x = f y -> x = y.
Proof.
  induction l as [|a l IH]; simpl; intros Hnd x y Hx Hy E; [contradiction|].
  inversion Hnd as [|? ? Hnot Hnd']; subst.
  destruct Hx as [<- | Hx], Hy as [<- | Hy]; auto.
  - exfalso. apply Hnot. rewrite E. now apply in_map.
  - exfalso. apply Hnot. rewrite <- E. now apply in_map.
Qed.

Lemma TEMPLATES_pairs :
  TEMPLATES = map (fun fv => Some (v_name (snd fv))) (pairs_of FRAMEWORKS).
Proof. reflexivity. Qed.

Lemma NoDup_TEMPLATES : NoDup TEMPLATES.
Proof.
  vm_compute. repeat (constructor; [simpl; intuition discriminate|]). constructor.
Qed.

Lemma includes_string l s : includes l (AString s) = true <-> In (Some s) l.
Proof.
  unfold includes. rewrite existsb_exists. split.
  - intros ([n|] & Hin & E); [|discriminate]. apply jseqb_eq in E. now subst.
  - intro H. exists (Some s). split; [assumption | apply jseqb_refl].
Qed.

(** The ids of the catalog, pair by pair, are pairwise distinct. *)
Lemma NoDup_catalog_ids :
  NoDup (map (fun fv => v_name (snd fv)) (pairs_of FRAMEWORKS)).
Proof.
  vm_compute. repeat (constructor; [simpl; intuition discriminate|]). constructor.
Qed.

(** C9: the ids of the variants of the catalog, taken framework by framework
    and variant by variant, are pairwise distinct; [TEMPLATES.includes]
    reports the id of every variant of every framework of the catalog, and
    that id belongs to exactly one (framework, variant) pair; and
    [TEMPLATES] reports no other string. *)
Theorem catalog_ids_unique :
  NoDup (map (fun fv => v_name (snd fv)) (pairs_of FRAMEWORKS)) /\
  (forall f vs v,
     In f FRAMEWORKS -> f_variants f = Some vs -> In v vs ->
     includes TEMPLATES (AString (v_name v)) = true /\
     exists! fv, is_variant_of (v_name v) fv) /\
  (forall id, includes TEMPLATES (AString id) = true ->
     exists fv, is_variant_of id fv) /\
  NoDup TEMPLATES.
Proof.
  split; [exact NoDup_catalog_ids|].
  split; [|split; [|exact NoDup_TEMPLATES]].
  - intros f vs v Hf Hvs Hv.
    assert (In (f, v) (pairs_of FRAMEWORKS)) as Hin by (apply in_pairs_of; eauto).
    split.
    + apply includes_string. rewrite TEMPLATES_pairs.
      apply in_map_iff. exists (f, v). now split.
    + exists (f, v). split.
      * unfold is_variant_of. cbn [fst snd]. eauto.
      * intros [f' w'] (Hf' & Hvs' & Hn). cbn [fst snd] in Hf', Hvs', Hn.
        apply (NoDup_map_injective _ _ NoDup_catalog_ids);
          [assumption | apply in_pairs_of; tauto |].
        cbn [snd]. congruence.
  - intros id Hid. apply includes_string in Hid. rewrite TEMPLATES_pairs in Hid.
    apply in_map_iff in Hid as ([f w] & Hname & Hin).
    cbn [snd] in Hname. injection Hname as Hname.
    exists (f, w). apply in_pairs_of in Hin. unfold is_variant_of. cbn [fst snd]. tauto.
Qed.

Lemma catalog_ids_unique_witness :
  includes TEMPLATES (AString (str "react-swc")) = true /\
  exists! fv, is_variant_of (str "react-swc") fv.
Proof.
  apply (proj1 (proj2 catalog_ids_unique) react
           [ mkVariant (str "react-ts") (str "TypeScript") Blue;
             mkVariant (str "react-swc-ts") (str "TypeScript + SWC") Blue;
             mkVariant (str "react") (str "JavaScript") Yellow;
             mkVariant (str "react-swc") (str "JavaScript + SWC") Yellow ]
           (mkVariant (str "react-swc") (str "JavaScript + SWC") Yellow)).
  - vm_compute. tauto.
  - reflexivity.
  - vm_compute. tauto.
Defined.

(* ================================================================== *)
(** * The prompt flow *)

Lemma select_framework frameworks a prev pick :
  select_value (q_choices (framework_question frameworks a) prev) pick =
  match nth_error frameworks pick with
  | Some f => JFramework f
  | None => JUndefined
  end.
Proof.
  unfold select_value. cbn [q_choices framework_question].
  rewrite nth_error_map. destruct (nth_error frameworks pick); reflexivity.
Qed.

(** A project name is a string: it has no [variants]. *)
Lemma variant_skipped_after_text s :
  q_type variant_question (JStr s) = None.
Proof. destruct s; reflexivity. Qed.

Lemma variant_question_choices f vs :
  f_variants f = Some vs ->
  q_choices variant_question (JFramework f) = variant_choices vs.
Proof. intro H. cbn [q_choices variant_question variants_of]. now rewrite H. Qed.

Ltac finish_variant f vs Hvs :=
  change (q_name variant_question) with (str "variant");
  rewrite (variant_question_choices f vs Hvs);
  match goal with
  | |- context [r_abort (?u (str "variant"))] =>
    destruct (r_abort (u (str "variant"))); reflexivity
  end.

Ltac after_name frameworks u :=
  cbn [q_type framework_question q_name l_prev l_asked l_vars l_answers];
  destruct (truthy _ && includes _ _);
  [ try rewrite variant_skipped_after_text; reflexivity
  | destruct (r_abort (u (str "framework"))); [reflexivity|];
    rewrite select_framework;
    let f := fresh "f" in
    destruct (nth_error frameworks _) as [f|]; [|reflexivity];
    cbn [q_type variant_question truthy_val variants_of l_prev];
    let vs := fresh "vs" in let Hvs := fresh "Hvs" in
    destruct (f_variants f) as [vs|] eqn:Hvs; [|reflexivity];
    finish_variant f vs Hvs ].

Lemma ask_decision_table frameworks argv u :
  (l_asked (fst (ask frameworks argv u)), snd (ask frameworks argv u)) =
  decision_table frameworks argv u.
Proof.
  unfold ask, prompts, questions, decision_table.
  cbn [prompts_loop q_type q_name projectName_question l_prev l_asked l_vars l_answers].
  destruct (truthy_str _); cbn [negb andb].
  - after_name frameworks u.
  - destruct (r_abort (u (str "projectName"))); [reflexivity|].
    after_name frameworks u.
Qed.

Lemma ask_targetDir frameworks argv u :
  l_vars (fst (ask frameworks argv u)) = targetDir_after argv u.
Proof.
  unfold ask, prompts, questions, targetDir_after.
  cbn [prompts_loop q_type q_name projectName_question l_prev l_asked l_vars l_answers].
  destruct (truthy_str _); cbn [negb andb].
  - after_name frameworks u.
  - destruct (r_abort (u (str "projectName"))); [reflexivity|].
    after_name frameworks u.
Qed.

(** The table, for a run given by its final state and result. *)
Lemma ask_table frameworks argv u st r :
  ask frameworks argv u = (st, r) ->
  decision_table frameworks argv u = (l_asked st, r).
Proof.
  intro H. rewrite <- ask_decision_table, H. reflexivity.
Qed.

Ltac split_table H :=
  apply ask_table in H; unfold decision_table in H;
  repeat match type of H with
  | context [if ?c then _ else _] => destruct c eqn:?
  | context [match nth_error ?l ?n with _ => _ end] => destruct (nth_error l n) eqn:?
  | context [match f_variants ?f with _ => _ end] => destruct (f_variants f) eqn:?
  end;
  let Ha := fresh "Hasked" in let Hr := fresh "Hres" in
  injection H as Ha Hr; try discriminate Hr;
  try (injection Hr as Hr); symmetry in Ha.

Ltac absurd_asked :=
  match goal with
  | Hx : existsb _ _ = _ |- _ => vm_compute in Hx; discriminate Hx
  end.

Lemma variant_needs_framework frameworks argv u st r :
  ask frameworks argv u = (st, r) ->
  asked (str "variant") st = true ->
  asked (str "framework") st = true /\
  exists f vs,
    nth_error frameworks (r_pick (u (str "framework"))) = Some f /\
    f_variants f = Some vs.
Proof.
  intro H. unfold asked.
  apply ask_table in H; unfold decision_table in H.
  repeat match type of H with
  | context [if ?c then _ else _] => destruct c eqn:?
  | context [match nth_error ?l ?n with _ => _ end] => destruct (nth_error l n) eqn:?
  | context [match f_variants ?f with _ => _ end] => destruct (f_variants f) eqn:?
  end; injection H as Hasked Hres; rewrite <- Hasked; intro Hx;
  try (vm_compute in Hx; discriminate Hx); split; try reflexivity; eauto.
Qed.

Lemma template_of_name v a :
  v_name v <> [] -> template_of (JStr (v_name v)) a = AString (v_name v).
Proof. destruct (v_name v); [congruence | reflexivity]. Qed.

Lemma catalog_names_nonempty f vs v :
  In f FRAMEWORKS -> f_variants f = Some vs -> In v vs -> v_name v <> [].
Proof.
  intros Hf Hvs Hv.
  assert (In (f, v) (pairs_of FRAMEWORKS)) as Hin by (apply in_pairs_of; eauto).
  assert (forallb (fun fv => negb (jseqb (v_name (snd fv)) [])) (pairs_of FRAMEWORKS) = true)
    as Hall by reflexivity.
  rewrite forallb_forall in Hall. specialize (Hall _ Hin). cbn [snd] in Hall.
  intro E. rewrite E in Hall. discriminate.
Qed.

Lemma select_variant vs pick v :
  nth_error vs pick = Some v -> select_value (variant_choices vs) pick = JStr (v_name v).
Proof.
  intro H. unfold select_value, variant_choices. rewrite nth_error_map, H. reflexivity.
Qed.

(** When the variant question is shown in a completed run, the template
    is the id of the variant under the cursor. *)
Lemma chosen_variant_is_template argv u st result :
  ask FRAMEWORKS argv u = (st, Ok result) ->
  asked (str "variant") st = true ->
  exists f vs,
    nth_error FRAMEWORKS (r_pick (u (str "framework"))) = Some f /\
    f_variants f = Some vs /\
    forall v, nth_error vs (r_pick (u (str "variant"))) = Some v ->
              template_in argv result = AString (v_name v).
Proof.
  intro H. unfold asked, template_in.
  split_table H; rewrite Hasked; subst result; intro Hv; try absurd_asked.
  all: match goal with
       | Hf : nth_error FRAMEWORKS _ = Some ?f, Hvs : f_variants ?f = Some ?vs |- _ =>
         exists f, vs; repeat split; try assumption; intros v Hpick;
         change (get _ (str "variant"))
           with (select_value (variant_choices vs) (r_pick (u (str "variant"))));
         rewrite (select_variant _ _ _ Hpick);
         apply template_of_name;
         apply (catalog_names_nonempty f vs v);
         eauto using nth_error_In
       end.
Qed.

(** When the variant question is not shown, the answers hold no variant. *)
Lemma no_variant_answer argv u st result :
  ask FRAMEWORKS argv u = (st, Ok result) ->
  asked (str "variant") st = false ->
  get result (str "variant") = JUndefined.
Proof.
  intro H. unfold asked.
  split_table H; rewrite Hasked; subst result; intro Hv; try absurd_asked;
    reflexivity.
Qed.

(** C1 (amended): in a completed run the template is the variant id chosen
    when the variant question was shown, and the candidate of the command
    line otherwise; when that candidate is a known variant id neither the
    framework nor the variant question is shown and the candidate is the
    template. *)
Theorem template_resolution argv u st result :
  ask FRAMEWORKS argv u = (st, Ok result) ->
  (asked (str "variant") st = true ->
   exists f vs,
     nth_error FRAMEWORKS (r_pick (u (str "framework"))) = Some f /\
     f_variants f = Some vs /\
     forall v, nth_error vs (r_pick (u (str "variant"))) = Some v ->
               template_in argv result = AString (v_name v)) /\
  (asked (str "variant") st = false ->
   template_in argv result = argTemplate_of argv) /\
  (known_template (argTemplate_of argv) = true ->
   asked (str "framework") st = false /\ asked (str "variant") st = false /\
   template_in argv result = argTemplate_of argv).
Proof.
  intro H.
  assert (asked (str "variant") st = false ->
          template_in argv result = argTemplate_of argv) as Hno.
  { intro Hv. unfold template_in. now rewrite (no_variant_answer _ _ _ _ H Hv). }
  split; [now apply chosen_variant_is_template|]. split; [exact Hno|].
  intro Hk.
  assert (asked (str "framework") st = false) as Hf.
  { destruct (asked (str "framework") st) eqn:E; [|reflexivity].
    revert Hk E. unfold asked, known_template.
    split_table H; rewrite Hasked; unfold TEMPLATES in *; intros Hk E;
      try congruence; absurd_asked. }
  assert (asked (str "variant") st = false) as Hv.
  { destruct (asked (str "variant") st) eqn:E; [|reflexivity].
    destruct (variant_needs_framework _ _ _ _ _ H E) as (Hf' & _). congruence. }
  auto.
Qed.

(** C1 as stated fails: with [--template vue-ts], a valid id of a
    framework with two variants, the variant question is not shown, and the
    template stays [vue-ts] whatever row the user would have taken. *)
Lemma flag_template_not_overridden :
  known_template (argTemplate_of argv_vue_ts) = true /\
  exists st result,
    ask FRAMEWORKS argv_vue_ts second_row = (st, Ok result) /\
    asked (str "variant") st = false /\
    template_in argv_vue_ts result = AString (str "vue-ts") /\
    template_in argv_vue_ts result <> AString (str "vue").
Proof.
  split; [reflexivity|].
  eexists; eexists. split; [reflexivity|].
  split; [reflexivity|]. split; [reflexivity|]. vm_compute. discriminate.
Qed.

Lemma template_resolution_witness :
  exists st result,
    ask FRAMEWORKS argv_bogus second_row = (st, Ok result) /\
    template_in argv_bogus result = AString (str "react-swc-ts").
Proof.
  eexists; eexists. split; [reflexivity|].
  match goal with
  | |- template_in _ ?result = _ =>
    destruct (template_resolution argv_bogus second_row _ result eq_refl)
      as (Hv & _ & _)
  end.
  destruct (Hv eq_refl) as (f & vs & Hf & Hvs & Ht).
  injection Hf as <-. injection Hvs as <-.
  exact (Ht _ eq_refl).
Defined.

Lemma variant_id_known f vs v :
  In f FRAMEWORKS -> f_variants f = Some vs -> In v vs ->
  known_template (AString (v_name v)) = true.
Proof.
  intros Hf Hvs Hv. unfold known_template. apply andb_true_iff. split.
  - pose proof (catalog_names_nonempty f vs v Hf Hvs Hv) as Hne.
    simpl. destruct (v_name v); [congruence | reflexivity].
  - apply includes_string. rewrite TEMPLATES_pairs.
    apply (in_map (fun fv => Some (v_name (snd fv))) _ (f, v)).
    apply in_pairs_of. eauto.
Qed.

Lemma shipped_frameworks_have_variants f :
  In f FRAMEWORKS -> exists vs, f_variants f = Some vs /\ 1 < List.length vs.
Proof.
  intros [<- | [<- | []]]; eexists; (split; [reflexivity | simpl; lia]).
Qed.

Lemma framework_asked_iff argv u st r :
  ask FRAMEWORKS argv u = (st, r) ->
  (asked (str "projectName") st = true -> r_abort (u (str "projectName")) = false) ->
  asked (str "framework") st = negb (known_template (argTemplate_of argv)).
Proof.
  intro H. unfold asked, known_template.
  split_table H; rewrite Hasked; unfold TEMPLATES; intro Hname;
    try match goal with Hk : truthy _ && _ = _ |- _ => rewrite Hk end;
    try reflexivity.
  apply andb_true_iff in Heqb as (_ & Hab). rewrite Hname in Hab by reflexivity.
  discriminate.
Qed.

Lemma variant_asked_when_unknown argv u st result :
  ask FRAMEWORKS argv u = (st, Ok result) ->
  known_template (argTemplate_of argv) = false ->
  on_a_row FRAMEWORKS (r_pick (u (str "framework"))) = true ->
  asked (str "variant") st = true.
Proof.
  intros H Hk Hrow. unfold asked, known_template, on_a_row in *.
  split_table H; rewrite Hasked; unfold TEMPLATES in *; try congruence; try reflexivity.
  all: try match goal with
       | Hn : nth_error _ _ = None |- _ =>
         apply Nat.ltb_lt in Hrow; apply nth_error_None in Hn; lia
       end.
  all: match goal with
       | Hf : nth_error FRAMEWORKS _ = Some ?f, Hvs : f_variants ?f = None |- _ =>
         apply nth_error_In, shipped_frameworks_have_variants in Hf;
         destruct Hf as (vs & Hvs' & _); congruence
       end.
Qed.

(** C5: in a completed run the framework question is skipped exactly when
    the candidate of the command line is a known variant id; with any other
    candidate the framework and the variant questions are both shown and the
    template is the variant id taken in the menu, not the candidate. *)
Theorem framework_question_skip argv u st r :
  ask FRAMEWORKS argv u = (st, r) ->
  ((asked (str "projectName") st = true -> r_abort (u (str "projectName")) = false) ->
   (asked (str "framework") st = false <->
    known_template (argTemplate_of argv) = true)) /\
  (forall result, r = Ok result ->
   known_template (argTemplate_of argv) = false ->
   on_a_row FRAMEWORKS (r_pick (u (str "framework"))) = true ->
   asked (str "framework") st = true /\ asked (str "variant") st = true /\
   exists f vs,
     nth_error FRAMEWORKS (r_pick (u (str "framework"))) = Some f /\
     f_variants f = Some vs /\
     forall v, nth_error vs (r_pick (u (str "variant"))) = Some v ->
       template_in argv result = AString (v_name v) /\
       template_in argv result <> argTemplate_of argv).
Proof.
  intro H. split.
  - intro Hname. rewrite (framework_asked_iff _ _ _ _ H Hname).
    destruct (known_template _); simpl; split; congruence.
  - intros result -> Hk Hrow.
    pose proof (variant_asked_when_unknown _ _ _ _ H Hk Hrow) as Hva.
    destruct (chosen_variant_is_template argv u st result H Hva)
      as (f & vs & Hf & Hvs & Ht).
    destruct (variant_needs_framework _ _ _ _ _ H Hva) as (Hfa & _).
    split; [assumption|]. split; [assumption|].
    exists f, vs. split; [assumption|]. split; [assumption|].
    intros v Hv. split; [now apply Ht|].
    rewrite (Ht v Hv). intro E. rewrite <- E in Hk.
    rewrite (variant_id_known f vs v) in Hk; eauto using nth_error_In. discriminate.
Qed.

Lemma framework_question_skip_witness :
  asked (str "framework") (fst (ask FRAMEWORKS argv_vue_ts second_row)) = false /\
  exists st result,
    ask FRAMEWORKS argv_bogus second_row = (st, Ok result) /\
    asked (str "framework") st = true /\ asked (str "variant") st = true /\
    template_in argv_bogus result = AString (str "react-swc-ts") /\
    template_in argv_bogus result <> AString (str "bogus-name").
Proof.
  split.
  - destruct (framework_question_skip argv_vue_ts second_row _ _ (surjective_pairing _))
      as (Hiff & _).
    apply (Hiff (fun _ => eq_refl)). reflexivity.
  - eexists; eexists. split; [reflexivity|].
    match goal with
    | |- _ /\ _ /\ template_in _ ?result = _ /\ _ =>
      destruct (framework_question_skip argv_bogus second_row _ _ eq_refl)
        as (_ & Hq);
      destruct (Hq result eq_refl eq_refl eq_refl)
        as (Hf & Hv & f & vs & Ef & Evs & Ht)
    end.
    injection Ef as <-. injection Evs as <-.
    destruct (Ht _ eq_refl) as (Ht1 & Ht2).
    repeat split; assumption.
Defined.

(** C7: for any catalog, the variant question is shown only after the
    framework question was shown and answered with a framework that carries
    [variants]; it is skipped when the framework question was skipped and
    when the framework taken has no [variants].  With the shipped catalog
    the framework taken then has more than one variant, and a completed run
    that skipped the question holds no variant answer. *)
Theorem variant_question_guard :
  (forall frameworks argv u st r,
     ask frameworks argv u = (st, r) ->
     (asked (str "variant") st = true ->
      asked (str "framework") st = true /\
      exists f vs,
        nth_error frameworks (r_pick (u (str "framework"))) = Some f /\
        f_variants f = Some vs) /\
     (asked (str "framework") st = false -> asked (str "variant") st = false) /\
     (forall f, nth_error frameworks (r_pick (u (str "framework"))) = Some f ->
                f_variants f = None -> asked (str "variant") st = false)) /\
  (forall argv u st r,
     ask FRAMEWORKS argv u = (st, r) ->
     (asked (str "variant") st = true ->
      exists f vs,
        nth_error FRAMEWORKS (r_pick (u (str "framework"))) = Some f /\
        f_variants f = Some vs /\ 1 < List.length vs) /\
     (forall result, r = Ok result -> asked (str "variant") st = false ->
                     get result (str "variant") = JUndefined)).
Proof.
  split.
  - intros frameworks argv u st r H.
    pose proof (variant_needs_framework _ _ _ _ _ H) as Hgen.
    split; [exact Hgen|]. split.
    + intro Hf. destruct (asked (str "variant") st); [|reflexivity].
      destruct (Hgen eq_refl) as (Hf' & _). congruence.
    + intros f Hf Hnone. destruct (asked (str "variant") st); [|reflexivity].
      destruct (Hgen eq_refl) as (_ & f' & vs & Hf' & Hvs). congruence.
  - intros argv u st r H. split.
    + intro Hv.
      destruct (variant_needs_framework _ _ _ _ _ H Hv) as (_ & f & vs & Hf & Hvs).
      exists f, vs. repeat split; try assumption.
      apply nth_error_In, shipped_frameworks_have_variants in Hf.
      destruct Hf as (vs' & Hvs' & Hlen). congruence.
    + intros result -> Hv. exact (no_variant_answer _ _ _ _ H Hv).
Qed.

Lemma variant_question_guard_witness :
  asked (str "variant") (fst (ask bare_catalog argv_none first_row)) = false /\
  asked (str "variant") (fst (ask FRAMEWORKS argv_vue_ts second_row)) = false /\
  (exists f vs,
     nth_error FRAMEWORKS (r_pick (second_row (str "framework"))) = Some f /\
     f_variants f = Some vs /\ 1 < List.length vs).
Proof.
  destruct variant_question_guard as (Hgen & Hship).
  split; [|split].
  - destruct (Hgen bare_catalog argv_none first_row _ _ (surjective_pairing _))
      as (_ & _ & Hnone).
    exact (Hnone _ eq_refl eq_refl).
  - destruct (Hgen FRAMEWORKS argv_vue_ts second_row _ _ (surjective_pairing _))
      as (_ & Hskip & _).
    exact (Hskip eq_refl).
  - exact (proj1 (Hship argv_bogus second_row _ _ (surjective_pairing _)) eq_refl).
Defined.

Lemma init_cancelled argv env u fuel fs st e :
  truthy (arg_help argv) = false ->
  ask FRAMEWORKS argv u = (st, Throw (Error e)) ->
  init argv env u fuel fs = mkWorld [Log (str "err " ++ e)] fs Returned.
Proof.
  intros Hh H. unfold init. rewrite Hh, H. reflexivity.
Qed.

(** C4: when the user aborts a question that is shown, the question loop
    rejects with the cancel error, [init] catches it, prints the message and
    returns: the file system is what it was, nothing is printed as an error
    and the process ends with exit code 0. *)
Theorem cancel_leaves_no_trace argv env u fuel fs name :
  truthy (arg_help argv) = false ->
  In name (l_asked (fst (ask FRAMEWORKS argv u))) ->
  r_abort (u name) = true ->
  snd (ask FRAMEWORKS argv u) = Throw (Error cancel_message) /\
  main argv env u fuel fs =
    mkWorld [Log (str "err " ++ cancel_message)] fs Returned /\
  exit_code (main argv env u fuel fs) = Some 0.
Proof.
  intros Hh Hin Hab.
  assert (snd (ask FRAMEWORKS argv u) = Throw (Error cancel_message)) as Hthrow.
  { destruct (ask FRAMEWORKS argv u) as [st r] eqn:H. cbn [fst snd] in *.
    split_table H; rewrite Hasked in Hin; try (subst r; reflexivity); exfalso.
    all: repeat match goal with
         | Hb : negb _ && _ = false |- _ => cbn [negb andb] in Hb
         end.
    all: cbn [app In] in Hin; 
         repeat match goal with
         | Hi : _ = _ \/ _ |- _ => destruct Hi as [<- | Hi]
         | Hi : False |- _ => destruct Hi
         end; congruence. }
  destruct (ask FRAMEWORKS argv u) as [st r] eqn:H. cbn [snd] in Hthrow. subst r.
  split; [reflexivity|].
  unfold main. rewrite (init_cancelled _ _ _ _ _ _ _ Hh H). split; reflexivity.
Qed.

Lemma cancel_leaves_no_trace_witness :
  main argv_none env_example aborting 0 fs_example =
    mkWorld [Log (str "err " ++ cancel_message)] fs_example Returned.
Proof.
  refine (proj1 (proj2 (cancel_leaves_no_trace argv_none env_example aborting 0
                          fs_example (str "projectName") eq_refl _ eq_refl))).
  vm_compute. left. reflexivity.
Defined.

(* ================================================================== *)
(** * The positional argument, and the top level *)

Lemma ask_positional_empty frameworks s rest tpl t h u :
  formatTargetDir (Some s) = Some [] ->
  ask frameworks (mkArgv (s :: rest) tpl t h) u = ask frameworks (mkArgv [] tpl t h) u.
Proof.
  intro H. unfold ask. cbn [positional nth_error]. rewrite H. reflexivity.
Qed.

Lemma first_question_is_name frameworks argv u :
  truthy_str (formatTargetDir (nth_error (positional argv) 0)) = false ->
  hd_error (l_asked (fst (ask frameworks argv u))) = Some (str "projectName").
Proof.
  intro Hs. destruct (ask frameworks argv u) as [st r] eqn:H. cbn [fst].
  apply ask_table in H. unfold decision_table in H. rewrite Hs in H.
  repeat match type of H with
  | context [if ?c then _ else _] => destruct c eqn:?
  | context [match nth_error ?l ?n with _ => _ end] => destruct (nth_error l n) eqn:?
  | context [match f_variants ?f with _ => _ end] => destruct (f_variants f) eqn:?
  end; injection H as Hasked Hres; rewrite <- Hasked; reflexivity.
Qed.

Lemma default_applies frameworks argv u :
  truthy_str (formatTargetDir (nth_error (positional argv) 0)) = false ->
  r_typed (u (str "projectName")) = [] ->
  r_text (u (str "projectName")) = [] ->
  l_vars (fst (ask frameworks argv u)) = defaultTargetDir.
Proof.
  intros Hs Hty Htx. rewrite ask_targetDir. unfold targetDir_after. rewrite Hs.
  unfold fire_states, text_value. rewrite Hty, Htx.
  destruct (formatTargetDir (nth_error (positional argv) 0)) as [[|c r]|];
    try discriminate; reflexivity.
Qed.

(** C6: the candidate target directory of a positional argument is the
    argument trimmed of the whitespace around it and then rid of the slashes
    that end it ([my-app/] gives [my-app]); when that comes out empty the run
    is the run without a positional argument: the project-name question is
    the first one shown and an unchanged prompt leaves [vite-project]. *)
Theorem positional_target_dir :
  (forall s r, formatTargetDir (Some s) = Some r <-> target_dir_of s r) /\
  formatTargetDir (Some (str "my-app/")) = Some (str "my-app") /\
  (forall s rest tpl t h env u fuel fs,
     formatTargetDir (Some s) = Some [] ->
     main (mkArgv (s :: rest) tpl t h) env u fuel fs =
     main (mkArgv [] tpl t h) env u fuel fs) /\
  (forall argv u,
     truthy_str (formatTargetDir (nth_error (positional argv) 0)) = false ->
     hd_error (l_asked (fst (ask FRAMEWORKS argv u))) = Some (str "projectName") /\
     (r_typed (u (str "projectName")) = [] ->
      r_text (u (str "projectName")) = [] ->
      l_vars (fst (ask FRAMEWORKS argv u)) = defaultTargetDir)).
Proof.
  split; [exact formatTargetDir_iff|]. split; [reflexivity|]. split.
  - intros s rest tpl t h env u fuel fs H.
    unfold main, init. rewrite (ask_positional_empty _ _ _ _ _ _ _ H). reflexivity.
  - intros argv u Hs. split.
    + now apply first_question_is_name.
    + now apply default_applies.
Qed.

Lemma positional_target_dir_witness :
  target_dir_of (str "  my-app// ") (str "my-app") /\
  main (mkArgv [str " // "] AUndefined AUndefined AUndefined)
       env_example first_row 4 fs_example =
  main argv_none env_example first_row 4 fs_example /\
  l_vars (fst (ask FRAMEWORKS (mkArgv [str " // "] AUndefined AUndefined AUndefined)
                   first_row)) = str "vite-project".
Proof.
  destruct positional_target_dir as (Hiff & _ & Hmain & Hask).
  split; [|split].
  - apply Hiff. reflexivity.
  - apply Hmain. reflexivity.
  - apply (Hask (mkArgv [str " // "] AUndefined AUndefined AUndefined) first_row);
      reflexivity.
Defined.

Lemma init_failed argv env u fuel fs st result e fs' :
  truthy (arg_help argv) = false ->
  ask FRAMEWORKS argv u = (st, Ok result) ->
  materialize fuel (root_of env (l_vars st))
              (templateDir_of env (template_in argv result)) fs = Failed e fs' ->
  exists out,
    init argv env u fuel fs = mkWorld out fs' (Thrown e) /\
    Forall (fun l => exists text, l = Log text) out.
Proof.
  intros Hh H Hm. unfold init. rewrite Hh, H, Hm.
  eexists. split; [reflexivity|]. repeat constructor; eexists; reflexivity.
Qed.

(** C2 (amended): an error thrown during materialisation leaves [init]
    uncaught, the handler of the top level prints it with [console.error],
    and the process then ends normally, with exit code 0. *)
Theorem materialize_error_reported argv env u fuel fs st result e fs' :
  truthy (arg_help argv) = false ->
  ask FRAMEWORKS argv u = (st, Ok result) ->
  materialize fuel (root_of env (l_vars st))
              (templateDir_of env (template_in argv result)) fs = Failed e fs' ->
  settled (init argv env u fuel fs) = Thrown e /\
  (exists out,
     Forall (fun l => exists text, l = Log text) out /\
     main argv env u fuel fs = mkWorld (out ++ [ConsoleError e]) fs' Returned) /\
  exit_code (main argv env u fuel fs) = Some 0.
Proof.
  intros Hh H Hm.
  destruct (init_failed _ _ _ _ _ _ _ _ _ Hh H Hm) as (out & Hi & Hout).
  unfold main. rewrite Hi. cbn [settled console files]. split; [reflexivity|].
  split; [|reflexivity]. exists out. split; [assumption | reflexivity].
Qed.

(** C2 as stated fails: the template directory is missing, the error is
    printed, and the exit code is 0. *)
Lemma failed_copy_exits_zero :
  materialize 3 (root_of env_example (str "my-app"))
              (templateDir_of env_example (AString (str "react-swc-ts"))) fs_example
  = Failed (SystemError ENOENT (str "scandir")
                        [str "opt"; str "vite-cli"; str "template-react-swc-ts"])
           fs_example /\
  In (ConsoleError (SystemError ENOENT (str "scandir")
                        [str "opt"; str "vite-cli"; str "template-react-swc-ts"]))
     (console (main argv_bogus env_example second_row 3 fs_example)) /\
  exit_code (main argv_bogus env_example second_row 3 fs_example) = Some 0.
Proof.
  split; [reflexivity|]. split; [|reflexivity].
  vm_compute. tauto.
Qed.

Lemma materialize_error_reported_witness :
  settled (init argv_bogus env_example second_row 3 fs_example)
  = Thrown (SystemError ENOENT (str "scandir")
                        [str "opt"; str "vite-cli"; str "template-react-swc-ts"]) /\
  exit_code (main argv_bogus env_example second_row 3 fs_example) = Some 0.
Proof.
  destruct (materialize_error_reported argv_bogus env_example second_row 3 fs_example
              _ _ _ _ eq_refl (surjective_pairing _) eq_refl) as (Hs & _ & Hx).
  split; assumption.
Defined.

(* ================================================================== *)
(** * Paths *)

Lemma is_prefix_iff p q : is_prefix p q = true <-> exists r, q = p ++ r.
Proof.
  revert q; induction p as [|x p IH]; intros q; simpl.
  - split; eauto.
  - destruct q as [|y q].
    + split; [discriminate | intros (r & E); discriminate].
    + rewrite andb_true_iff, jseqb_eq, IH. split.
      * intros (-> & r & ->). now exists r.
      * intros (r & E). injection E as -> ->. eauto.
Qed.

Lemma is_prefix_app p r : is_prefix p (p ++ r) = true.
Proof. apply is_prefix_iff. eauto. Qed.

Lemma is_prefix_refl p : is_prefix p p = true.
Proof. apply is_prefix_iff. exists []. now rewrite app_nil_r. Qed.

Lemma is_prefix_trans p q r :
  is_prefix p q = true -> is_prefix q r = true -> is_prefix p r = true.
Proof.
  rewrite !is_prefix_iff. intros (a & ->) (b & ->). exists (a ++ b).
  now rewrite app_assoc.
Qed.

(** A prefix of [p ++ [n]] is a prefix of [p], or all of it. *)
Lemma is_prefix_snoc q p n :
  is_prefix q (p ++ [n]) = true -> is_prefix q p = true \/ q = p ++ [n].
Proof.
  revert p; induction q as [|x q IH]; intros p; simpl; [auto|].
  destruct p as [|y p]; simpl.
  - destruct q as [|z q]; simpl.
    + rewrite andb_true_r, jseqb_eq. intros ->. auto.
    + rewrite andb_false_r. discriminate.
  - rewrite !andb_true_iff, jseqb_eq. intros (-> & H).
    destruct (IH _ H) as [H' | ->]; [left | right]; auto using jseqb_refl.
Qed.

Lemma is_prefix_false_app p q r :
  is_prefix p q = false -> is_prefix q p = false -> is_prefix p (q ++ r) = false.
Proof.
  revert q; induction p as [|x p IH]; intros q; simpl; [discriminate|].
  destruct q as [|y q]; simpl; [discriminate|].
  destruct (jseqb x y) eqn:E; simpl; [|reflexivity].
  rewrite jseqb_sym, E. simpl. apply IH.
Qed.

Lemma is_prefix_app_false p q r :
  is_prefix p q = false -> is_prefix (p ++ r) q = false.
Proof.
  intro H. destruct (is_prefix (p ++ r) q) eqn:E; [|reflexivity].
  rewrite <- H. symmetry. apply (is_prefix_trans _ (p ++ r)); auto using is_prefix_app.
Qed.

Lemma apart_iff p q :
  apart p q = true <-> is_prefix p q = false /\ is_prefix q p = false.
Proof.
  unfold apart. rewrite andb_true_iff, !negb_true_iff. tauto.
Qed.

(** Two paths that lie apart stay apart when one is extended. *)
Lemma apart_app p q r : apart p q = true -> apart p (q ++ r) = true.
Proof.
  rewrite !apart_iff. intros (H1 & H2). split.
  - now apply is_prefix_false_app.
  - now apply is_prefix_app_false.
Qed.

Lemma apart_not_below p q r : apart p q = true -> p ++ r <> q.
Proof.
  rewrite apart_iff. intros (H & _) <-. now rewrite is_prefix_app in H.
Qed.

(** Siblings with different names lie apart. *)
Lemma siblings_apart p n m : n <> m -> apart (p ++ [n]) (p ++ [m]) = true.
Proof.
  intro H. induction p as [|x p IH]; simpl.
  - unfold apart. simpl. rewrite !andb_true_r.
    apply jseqb_neq in H. rewrite H, jseqb_sym, H. reflexivity.
  - unfold apart in *. simpl. now rewrite jseqb_refl.
Qed.

(** ** Names and [path.join] *)

Lemma split_no_slash n cur :
  existsb is_slash n = false -> Path.split_on_slash n cur = [rev cur ++ n].
Proof.
  revert cur; induction n as [|c n IH]; intros cur H; simpl in *.
  - now rewrite app_nil_r.
  - apply orb_false_iff in H as [Hc Hn]. rewrite Hc, IH by assumption.
    simpl. now rewrite <- app_assoc.
Qed.

Lemma walk_valid p n : valid_name n = true -> fold_left Path.walk (Path.segments n) p = p ++ [n].
Proof.
  unfold valid_name. rewrite !andb_true_iff, !negb_true_iff.
  intros (((H0 & H1) & H2) & Hs).
  unfold Path.segments. rewrite split_no_slash by assumption. simpl.
  unfold Path.walk. now rewrite H0, H1, H2.
Qed.

Lemma join_valid p n : valid_name n = true -> Path.join p [n] = p ++ [n].
Proof. intro H. unfold Path.join. simpl. now apply walk_valid. Qed.

Lemma resolve_valid p n : valid_name n = true -> Path.resolve p [n] = p ++ [n].
Proof.
  intro H. unfold Path.resolve. simpl. destruct n as [|c n]; [discriminate|].
  assert (is_slash c = false) as Hc.
  { unfold valid_name in H. rewrite !andb_true_iff, !negb_true_iff in H.
    destruct H as (_ & Hs). simpl in Hs. now apply orb_false_iff in Hs. }
  rewrite Hc. now apply walk_valid.
Qed.

Lemma renamed_valid n : valid_name n = true -> valid_name (renamed n) = true.
Proof. unfold renamed. destruct (jseqb n _); auto. Qed.

(* ================================================================== *)
(** * Directory entries and lookup *)

Lemma find_set_same es n c : find_entry (set_entry es n c) n = Some c.
Proof.
  induction es as [|[k d] es IH]; simpl.
  - now rewrite jseqb_refl.
  - destruct (jseqb k n) eqn:E; simpl; now rewrite E.
Qed.

Lemma find_set_other es n m c :
  n <> m -> find_entry (set_entry es n c) m = find_entry es m.
Proof.
  intro H. induction es as [|[k d] es IH]; simpl.
  - apply jseqb_neq in H. now rewrite H.
  - destruct (jseqb k n) eqn:E; simpl.
    + apply jseqb_eq in E. subst k. apply jseqb_neq in H. now rewrite H.
    + now rewrite IH.
Qed.

Lemma set_entry_same es n c : find_entry es n = Some c -> set_entry es n c = es.
Proof.
  induction es as [|[k d] es IH]; simpl; [discriminate|].
  destruct (jseqb k n) eqn:E.
  - intro H. injection H as ->. reflexivity.
  - intro H. now rewrite IH.
Qed.

Lemma find_entry_in es n c : find_entry es n = Some c -> In (n, c) es.
Proof.
  induction es as [|[k d] es IH]; simpl; [discriminate|].
  destruct (jseqb k n) eqn:E.
  - intro H. injection H as ->. apply jseqb_eq in E. subst. now left.
  - auto.
Qed.

Lemma find_entry_name es n : In n (map fst es) -> exists c, find_entry es n = Some c.
Proof.
  induction es as [|[k d] es IH]; simpl; [contradiction|].
  destruct (jseqb k n) eqn:E; [eauto|].
  intros [-> | H]; [now rewrite jseqb_refl in E | auto].
Qed.

Lemma find_entry_none es n : find_entry es n = None -> ~ In n (map fst es).
Proof.
  intros H Hin. apply find_entry_name in Hin as (c & Hc). congruence.
Qed.

Lemma lookup_app t p q :
  lookup t (p ++ q) = match lookup t p with
                      | Some t' => lookup t' q
                      | None => None
                      end.
Proof.
  revert t; induction p as [|c p IH]; intros t; simpl; [reflexivity|].
  destruct t as [|es]; [reflexivity|].
  destruct (find_entry es c); [apply IH | reflexivity].
Qed.

Lemma lookup_file_below data q : q <> [] -> lookup (File data) q = None.
Proof. destruct q; [congruence | reflexivity]. Qed.

Lemma lookup_empty_dir q : q <> [] -> lookup (Dir []) q = None.
Proof. destruct q; [congruence | reflexivity]. Qed.

(** What lies above an existing node is a directory. *)
Lemma lookup_above_is_dir t p r x :
  lookup t (p ++ r) = Some x -> r <> [] -> exists es, lookup t p = Some (Dir es).
Proof.
  rewrite lookup_app. destruct (lookup t p) as [[data|es]|]; try discriminate.
  - intros H Hr. now rewrite lookup_file_below in H.
  - eauto.
Qed.

Lemma lookup_prefix_is_dir t p q x :
  lookup t p = Some x -> is_prefix q p = true -> q <> p ->
  exists es, lookup t q = Some (Dir es).
Proof.
  intros H Hq Hne. apply is_prefix_iff in Hq as (r & ->).
  apply (lookup_above_is_dir _ _ r x); [assumption|].
  intros ->. now rewrite app_nil_r in Hne.
Qed.

(* ================================================================== *)
(** * The file-system calls *)

(** [mkdirSync] changes nothing beside the path it creates, and leaves a
    directory at every prefix of it. *)
Lemma mkdir_rec_spec whole rest : forall t t',
  Fs.mkdir_rec whole t rest = Ok t' ->
  (forall q, is_prefix q rest = false -> lookup t' q = lookup t q) /\
  (forall q, is_prefix q rest = true -> exists es, lookup t' q = Some (Dir es)).
Proof.
  induction rest as [|c rest IH]; intros t t' H; simpl in H.
  - destruct t as [data|es]; [discriminate|]. injection H as <-. split.
    + intros q Hq. destruct q; [discriminate | reflexivity].
    + intros [|x q] Hq; [simpl; eauto | discriminate].
  - destruct t as [data|es]; [discriminate|].
    assert (exists ch0 ch', Fs.mkdir_rec whole ch0 rest = Ok ch' /\
                            t' = Dir (set_entry es c ch') /\
                            (forall q, q <> [] -> lookup ch0 q = lookup (Dir es) (c :: q)))
      as (ch0 & ch' & Hch & -> & Hold).
    { destruct (find_entry es c) as [ch|] eqn:Hf.
      - destruct (Fs.mkdir_rec whole ch rest) as [ch'|] eqn:Hch; [|discriminate].
        injection H as <-. exists ch, ch'. repeat split; try assumption.
        intros q _. simpl. now rewrite Hf.
      - destruct (Fs.mkdir_rec whole (Dir []) rest) as [ch'|] eqn:Hch; [|discriminate].
        injection H as <-. exists (Dir []), ch'. repeat split; try assumption.
        intros q Hq. simpl. rewrite Hf. now apply lookup_empty_dir. }
    destruct (IH _ _ Hch) as (Hout & Hin). split.
    + intros [|x q] Hq; [discriminate|]. simpl in Hq |- *.
      destruct (jseqb x c) eqn:E.
      * apply jseqb_eq in E. subst x. rewrite find_set_same.
        simpl in Hq. rewrite Hout by exact Hq. apply Hold.
        intros ->. discriminate.
      * apply jseqb_neq in E. rewrite find_set_other by congruence. reflexivity.
    + intros [|x q] Hq; [simpl; eauto|]. simpl in Hq |- *.
      apply andb_true_iff in Hq as (E & Hq). apply jseqb_eq in E. subst x.
      rewrite find_set_same. now apply Hin.
Qed.

(** [mkdirSync] on a directory that exists is silent and changes nothing. *)
Lemma mkdir_rec_existing whole rest : forall t es,
  lookup t rest = Some (Dir es) -> Fs.mkdir_rec whole t rest = Ok t.
Proof.
  induction rest as [|c rest IH]; intros t es H; simpl in *.
  - injection H as ->. reflexivity.
  - destruct t as [data|es']; [discriminate|].
    destruct (find_entry es' c) as [ch|] eqn:Hf; [|discriminate].
    rewrite (IH _ _ H). simpl. now rewrite set_entry_same.
Qed.

Lemma mkdir_rec_ok whole rest : forall t,
  creatable t rest = true -> exists t', Fs.mkdir_rec whole t rest = Ok t'.
Proof.
  induction rest as [|c rest IH]; intros t H; simpl.
  - destruct t; [discriminate | eauto].
  - destruct t as [data|es]; [discriminate|]. simpl in H.
    destruct (find_entry es c) as [ch|].
    + destruct (IH _ H) as (ch' & ->). simpl. eauto.
    + destruct (IH (Dir [])) as (ch' & ->); [destruct rest; reflexivity|].
      simpl. eauto.
Qed.

(** A path is creatable when what is above it is a directory and it is
    not itself a file. *)
Lemma creatable_child p n : forall t es,
  lookup t p = Some (Dir es) ->
  (forall data, find_entry es n <> Some (File data)) ->
  creatable t (p ++ [n]) = true.
Proof.
  induction p as [|c p IH]; intros t es H Hn; simpl in *.
  - injection H as ->. destruct (find_entry es n) as [[data|es']|]; try reflexivity.
    now destruct (Hn data).
  - destruct t as [data|es']; [discriminate|]. simpl.
    destruct (find_entry es' c); [eauto | discriminate].
Qed.

Lemma creatable_no_file t p : creatable t p = true ->
  forall q data, is_prefix q p = true -> lookup t q <> Some (File data).
Proof.
  revert t; induction p as [|c p IH]; intros t H q data Hq.
  - destruct q; [|discriminate]. destruct t; [discriminate|]. simpl. congruence.
  - destruct t as [d|es]; [discriminate|]. simpl in H.
    destruct q as [|x q]; [simpl; congruence|].
    simpl in Hq. apply andb_true_iff in Hq as (E & Hq). apply jseqb_eq in E. subst x.
    simpl. destruct (find_entry es c) as [ch|]; [|congruence].
    now apply IH.
Qed.

(** A file write changes nothing beside the file, and what is above the
    file is a directory. *)
Lemma write_rec_spec sys whole data rest : forall t t',
  Fs.write_rec sys whole t rest data = Ok t' ->
  lookup t' rest = Some (File data) /\
  (forall q, is_prefix q rest = false -> lookup t' q = lookup t q) /\
  (forall q, is_prefix q rest = true -> q <> rest ->
             exists es, lookup t' q = Some (Dir es)).
Proof.
  induction rest as [|c rest IH]; intros t t' H; simpl in H.
  - destruct t as [d|es]; [|discriminate]. injection H as <-. repeat split.
    + intros q Hq. destruct q; [discriminate | reflexivity].
    + intros [|x q] Hq Hne; [congruence | discriminate].
  - destruct t as [d|es]; [discriminate|].
    destruct (find_entry es c) as [ch|] eqn:Hf.
    + destruct (Fs.write_rec sys whole ch rest data) as [ch'|] eqn:Hch; [|discriminate].
      injection H as <-. destruct (IH _ _ Hch) as (Hat & Hout & Hin).
      simpl. rewrite find_set_same. split; [assumption|]. split.
      * intros [|x q] Hq; [discriminate|]. simpl in Hq |- *.
        destruct (jseqb x c) eqn:E.
        -- apply jseqb_eq in E. subst x. rewrite find_set_same, Hf. now apply Hout.
        -- apply jseqb_neq in E. rewrite find_set_other by congruence. reflexivity.
      * intros [|x q] Hq Hne; [simpl; eauto|]. simpl in Hq |- *.
        apply andb_true_iff in Hq as (E & Hq). apply jseqb_eq in E. subst x.
        rewrite find_set_same. apply Hin; congruence.
    + destruct rest as [|c' rest]; [|discriminate]. injection H as <-.
      simpl. rewrite find_set_same. split; [reflexivity|]. split.
      * intros [|x q] Hq; [discriminate|]. simpl in Hq |- *.
        destruct (jseqb x c) eqn:E.
        -- apply jseqb_eq in E. subst x. rewrite find_set_same, Hf.
           destruct q; [discriminate | reflexivity].
        -- apply jseqb_neq in E. rewrite find_set_other by congruence. reflexivity.
      * intros [|x q] Hq Hne; [simpl; eauto|]. simpl in Hq.
        apply andb_true_iff in Hq as (E & Hq). apply jseqb_eq in E. subst x.
        destruct q; [congruence | discriminate].
Qed.

Lemma write_rec_ok sys whole data p n : forall t es,
  lookup t p = Some (Dir es) ->
  (forall es', find_entry es n <> Some (Dir es')) ->
  exists t', Fs.write_rec sys whole t (p ++ [n]) data = Ok t'.
Proof.
  induction p as [|c p IH]; intros t es H Hn; simpl in *.
  - injection H as ->. destruct (find_entry es n) as [[d|es']|]; simpl; eauto.
    now destruct (Hn es').
  - destruct t as [d|es']; [discriminate|].
    destruct (find_entry es' c) as [ch|]; [|discriminate].
    destruct (IH _ _ H Hn) as (ch' & ->). simpl. eauto.
Qed.

(* ================================================================== *)
(** * Trees *)

Lemma distinct_NoDup l : distinct l = true -> NoDup l.
Proof.
  induction l as [|n l IH]; simpl; [constructor|].
  rewrite andb_true_iff, negb_true_iff. intros (Hn & Hl). constructor; [|auto].
  intro Hin. assert (existsb (jseqb n) l = true) as E.
  { apply existsb_exists. exists n. auto using jseqb_refl. }
  congruence.
Qed.

Lemma wfb_dir es :
  wfb (Dir es) = true ->
  NoDup (map fst es) /\
  (forall n, In n (map fst es) -> valid_name n = true) /\
  (forall n c, In (n, c) es -> wfb c = true).
Proof.
  simpl. rewrite !andb_true_iff, !forallb_forall. intros ((Hd & Hv) & Hw).
  split; [now apply distinct_NoDup|]. split; [exact Hv|].
  intros n c Hin. exact (Hw _ Hin).
Qed.

Lemma height_child es n c : In (n, c) es -> height c < height (Dir es).
Proof.
  intro Hin. simpl. apply Nat.lt_succ_r.
  induction es as [|[k d] es IH]; [contradiction|]. simpl.
  destruct Hin as [E | Hin].
  - injection E as -> ->. apply Nat.le_max_l.
  - etransitivity; [now apply IH | apply Nat.le_max_r].
Qed.

Lemma compatb_none t : compatb t None = true.
Proof. destruct t; reflexivity. Qed.

Lemma compatb_dir_child es d n c :
  compatb (Dir es) (Some d) = true -> In (n, c) es ->
  compatb c (lookup d [n]) = true.
Proof.
  destruct d as [data|des]; simpl; [discriminate|].
  rewrite forallb_forall. intros H Hin. specialize (H _ Hin). simpl in H.
  destruct (find_entry des n); assumption.
Qed.

Lemma apart_sym p q : apart p q = apart q p.
Proof. unfold apart. apply andb_comm. Qed.

Lemma apart_left p q : apart p q = true -> is_prefix p q = false.
Proof. intro H. now apply apart_iff in H. Qed.

Lemma apart_right p q : apart p q = true -> is_prefix q p = false.
Proof. intro H. now apply apart_iff in H. Qed.

Lemma is_prefix_longer p x r : is_prefix (p ++ x :: r) p = false.
Proof.
  induction p as [|y p IH]; simpl; [reflexivity|].
  now rewrite jseqb_refl.
Qed.

Lemma snoc_cons (p : path) x r : p ++ x :: r = (p ++ [x]) ++ r.
Proof. now rewrite <- app_assoc. Qed.

Lemma lookup_entry es n r c :
  find_entry es n = Some c -> lookup (Dir es) (n :: r) = lookup c r.
Proof. intro H. simpl. now rewrite H. Qed.

(* ================================================================== *)
(** * A loop over the entries of a directory *)

Section Entries.

Variable es : list (jsstring * node).
Variables src dest : path.
Variable g : jsstring -> jsstring.
Variable body : jsstring -> node -> outcome.

Hypothesis Hapart : apart src dest = true.
Hypothesis Hg : forall n m,
  In n (map fst es) -> In m (map fst es) -> g n = g m -> n = m.
Hypothesis Hbody : forall n c fs,
  find_entry es n = Some c ->
  lookup fs src = Some (Dir es) ->
  (exists des, lookup fs dest = Some (Dir des)) ->
  compatb c (lookup fs (dest ++ [g n])) = true ->
  exists fs', body n fs = Done fs' /\ copied c (dest ++ [g n]) fs fs'.

Lemma for_of_entries l : forall fs,
  NoDup l -> incl l (map fst es) ->
  lookup fs src = Some (Dir es) ->
  (exists des, lookup fs dest = Some (Dir des)) ->
  (forall n c, In n l -> find_entry es n = Some c ->
               compatb c (lookup fs (dest ++ [g n])) = true) ->
  exists fs', for_of l body fs = Done fs' /\ entries_copied es g l dest fs fs'.
Proof.
  induction l as [|n l IH]; intros fs Hnd Hincl Hsrc Hdest Hcompat.
  - exists fs. split; [reflexivity|]. repeat split.
    + intros q Hq. destruct Hdest as (des & Hdes).
      destruct (list_eq_dec (list_eq_dec N.eq_dec) q dest) as [-> | Hne]; [eauto|].
      eapply lookup_prefix_is_dir; eauto.
    + intros n r data [].
    + intros n r es' [].
  - inversion Hnd as [|? ? Hnotin Hnd']; subst.
    assert (In n (map fst es)) as Hn by (apply Hincl; now left).
    destruct (find_entry_name _ _ Hn) as (c & Hc).
    destruct (Hbody n c fs Hc Hsrc Hdest) as (fs1 & Hrun & A1 & B1 & C1 & D1).
    { apply Hcompat; [now left | assumption]. }
    assert (lookup fs1 src = Some (Dir es)) as Hsrc1.
    { rewrite A1; [assumption| |].
      - apply apart_left. now apply apart_app.
      - intros r E. exfalso. apply (apart_not_below dest src ([g n] ++ r)).
        + now rewrite apart_sym.
        + now rewrite app_assoc. }
    assert (exists des, lookup fs1 dest = Some (Dir des)) as Hdest1.
    { apply B1; [apply is_prefix_app|].
      intro E. apply (f_equal (@List.length _)) in E.
      rewrite length_app in E. simpl in E. lia. }
    destruct (IH fs1 Hnd') as (fs' & Hloop & A' & B' & C' & D'); try assumption.
    { intros m Hm. apply Hincl. now right. }
    { intros m d Hm Hd.
      assert (g m <> g n) as Hgm.
      { intro E. apply Hg in E; [congruence | apply Hincl; now right | assumption]. }
      rewrite A1; [apply Hcompat; [now right | assumption] | |].
      - apply apart_left. now apply siblings_apart.
      - intros r E. exfalso.
        apply (apart_not_below (dest ++ [g n]) (dest ++ [g m]) r); [|now symmetry].
        apply siblings_apart. congruence. }
    exists fs'. split; [simpl; now rewrite Hrun|].
    assert (forall r, is_prefix (dest ++ g n :: r) dest = false /\
                      forall m r', In m l -> dest ++ g n :: r = dest ++ g m :: r' ->
                                   lookup (Dir es) (m :: r') = None) as Hfresh.
    { intros r. split; [apply is_prefix_longer|].
      intros m r' Hm E. exfalso. apply app_inv_head in E. injection E as E _.
      apply Hg in E; [congruence | assumption | apply Hincl; now right]. }
    repeat split.
    + intros q Hq1 Hq2. rewrite A'.
      * apply A1.
        -- destruct (is_prefix q (dest ++ [g n])) eqn:E; [|reflexivity].
           apply is_prefix_snoc in E as [E | ->]; [congruence|].
           specialize (Hq2 n [] (or_introl eq_refl) eq_refl).
           rewrite (lookup_entry _ _ _ _ Hc) in Hq2. discriminate.
        -- intros r ->. rewrite <- (lookup_entry es n r c Hc).
           apply Hq2; [now left | symmetry; apply snoc_cons].
      * assumption.
      * intros m r Hm. apply Hq2. now right.
    + exact B'.
    + intros m r data [<- | Hm] Hr; [|now apply C'].
      destruct (Hfresh r) as (F1 & F2). rewrite A' by assumption.
      rewrite snoc_cons. apply C1. now rewrite <- (lookup_entry es n r c Hc).
    + intros m r es' [<- | Hm] Hr; [|now apply (D' m r es')].
      destruct (Hfresh r) as (F1 & F2). rewrite A' by assumption.
      rewrite snoc_cons. apply (D1 r es'). now rewrite <- (lookup_entry es n r c Hc).
Qed.

End Entries.

(* ================================================================== *)
(** * [copy] and [copyDir] *)

Lemma lookup_child fs parent pes name :
  lookup fs parent = Some (Dir pes) ->
  lookup fs (parent ++ [name]) = find_entry pes name.
Proof.
  intro H. rewrite lookup_app, H. simpl. now destruct (find_entry pes name).
Qed.

Lemma lookup_dir_inv es n r x :
  lookup (Dir es) (n :: r) = Some x ->
  exists c, find_entry es n = Some c /\ lookup c r = Some x /\ In n (map fst es).
Proof.
  simpl. destruct (find_entry es n) as [c|] eqn:Hc; [|discriminate].
  intro H. exists c. repeat split; try assumption.
  apply find_entry_in in Hc. now apply (in_map fst) in Hc.
Qed.

Lemma copy_file_correct data src parent name fs pes :
  lookup fs src = Some (File data) ->
  lookup fs parent = Some (Dir pes) ->
  compatb (File data) (lookup fs (parent ++ [name])) = true ->
  exists fs', Fs.copyFileSync fs src (parent ++ [name]) = Ok fs' /\
              copied (File data) (parent ++ [name]) fs fs'.
Proof.
  intros Hsrc Hparent Hcompat. unfold Fs.copyFileSync. rewrite Hsrc.
  rewrite (lookup_child _ _ _ _ Hparent) in Hcompat.
  destruct (write_rec_ok (str "copyfile") (parent ++ [name]) data parent name fs pes Hparent)
    as (fs' & Hw).
  { intros es' E. rewrite E in Hcompat. discriminate. }
  exists fs'. split; [assumption|].
  destruct (write_rec_spec _ _ _ _ _ _ Hw) as (Hat & Hout & Hin).
  repeat split.
  - intros q Hq _. now apply Hout.
  - exact Hin.
  - intros [|x r] d H; [|discriminate]. injection H as <-. now rewrite app_nil_r.
  - intros [|x r] es H; discriminate.
Qed.

Lemma copy_correct : forall fuel t src parent name fs pes,
  height t < fuel ->
  wfb t = true ->
  lookup fs src = Some t ->
  apart src (parent ++ [name]) = true ->
  lookup fs parent = Some (Dir pes) ->
  compatb t (lookup fs (parent ++ [name])) = true ->
  exists fs', copy fuel src (parent ++ [name]) fs = Done fs' /\
              copied t (parent ++ [name]) fs fs'.
Proof.
  induction fuel as [|k IH]; intros t src parent name fs pes Hfuel Hwf Hsrc Hapart Hparent Hcompat;
    [lia|].
  simpl. unfold reading, Fs.statSync. rewrite Hsrc. destruct t as [data|es].
  - destruct (copy_file_correct data src parent name fs pes Hsrc Hparent Hcompat)
      as (fs' & Hc & Hcopied).
    exists fs'. unfold effect. rewrite Hc. auto.
  - set (dest := parent ++ [name]) in *.
    destruct (wfb_dir _ Hwf) as (Hnd & Hvalid & Hwfc).
    unfold copyDir_with, effect, Fs.mkdirSync.
    destruct (mkdir_rec_ok dest dest fs) as (fs1 & Hmk).
    { apply (creatable_child parent name fs pes Hparent).
      intros data E. unfold dest in Hcompat.
      rewrite (lookup_child _ _ _ _ Hparent), E in Hcompat. discriminate. }
    rewrite Hmk. destruct (mkdir_rec_spec _ _ _ _ Hmk) as (Hout & Hin).
    assert (lookup fs1 src = Some (Dir es)) as Hsrc1.
    { rewrite Hout; [assumption | now apply apart_left]. }
    unfold reading, Fs.readdirSync. rewrite Hsrc1.
    destruct (for_of_entries es src dest (fun n => n)
                (fun file => copy k (Path.resolve src [file]) (Path.resolve dest [file]))
                Hapart) with (l := map fst es) (fs := fs1)
      as (fs' & Hloop & A' & B' & C' & D'); try assumption.
    + auto.
    + intros n c fsi Hc Hsrci Hdesti Hcompati.
      pose proof (find_entry_in _ _ _ Hc) as Hin_es.
      assert (valid_name n = true) as Hv by (apply Hvalid; now apply (in_map fst) in Hin_es).
      rewrite !resolve_valid by assumption.
      destruct Hdesti as (des & Hdesti).
      apply (IH c (src ++ [n]) dest n fsi des); try assumption.
      * pose proof (height_child _ _ _ Hin_es). lia.
      * now apply (Hwfc n).
      * rewrite lookup_app, Hsrci. now apply lookup_entry with (r := []) in Hc.
      * rewrite apart_sym. apply apart_app. rewrite apart_sym. now apply apart_app.
    + apply incl_refl.
    + apply Hin. apply is_prefix_refl.
    + intros n c Hn Hc. rewrite Hout by (apply (is_prefix_longer dest n [])).
      destruct (lookup fs dest) as [d|] eqn:Hd.
      * rewrite lookup_app, Hd.
        apply (compatb_dir_child es d n c Hcompat). now apply find_entry_in.
      * rewrite lookup_app, Hd. apply compatb_none.
    + exists fs'. split; [assumption|]. repeat split.
      * intros q Hq1 Hq2. rewrite A'; [now apply Hout | assumption |].
        intros n r _ E. now apply Hq2.
      * intros q Hq _. now apply B'.
      * intros [|n r] data H; [discriminate|].
        destruct (lookup_dir_inv _ _ _ _ H) as (c & _ & _ & Hn).
        now apply C'.
      * intros [|n r] es' H.
        -- rewrite app_nil_r. apply B'. apply is_prefix_refl.
        -- destruct (lookup_dir_inv _ _ _ _ H) as (c & _ & _ & Hn).
           now apply (D' n r es').
Qed.

(** ** Fuel *)

Lemma for_of_more_fuel (body1 body2 : jsstring -> node -> outcome) l :
  (forall file fs o, body1 file fs = o -> o <> OutOfFuel -> body2 file fs = o) ->
  forall fs o, for_of l body1 fs = o -> o <> OutOfFuel -> for_of l body2 fs = o.
Proof.
  intro Hb. induction l as [|file l IH]; intros fs o H Ho; simpl in *; [assumption|].
  destruct (body1 file fs) as [fs1|e fs1|] eqn:E.
  - rewrite (Hb _ _ _ E) by discriminate. now apply IH.
  - rewrite (Hb _ _ _ E) by discriminate. assumption.
  - congruence.
Qed.

Lemma copy_S fuel src dest fs :
  copy (S fuel) src dest fs =
  reading (Fs.statSync fs src) fs (fun isDirectory =>
    if isDirectory then copyDir_with (copy fuel) src dest fs
    else effect (Fs.copyFileSync fs src dest) fs Done).
Proof. reflexivity. Qed.

(** A run that ends within its fuel ends the same way with more. *)
Lemma copy_more_fuel fuel : forall src dest fs o,
  copy fuel src dest fs = o -> o <> OutOfFuel -> copy (S fuel) src dest fs = o.
Proof.
  induction fuel as [|k IH]; intros src dest fs o H Ho; [simpl in H; congruence|].
  rewrite copy_S in H. rewrite copy_S.
  unfold reading in *. destruct (Fs.statSync fs src) as [[|]|e]; try assumption.
  unfold copyDir_with, effect, reading in *.
  destruct (Fs.mkdirSync fs dest) as [fs1|e]; [|assumption].
  destruct (Fs.readdirSync fs1 src) as [names|e]; [|assumption].
  revert H Ho. apply for_of_more_fuel. intros file fsi oi. apply IH.
Qed.

Lemma materialize_more_fuel fuel root templateDir fs o :
  materialize fuel root templateDir fs = o -> o <> OutOfFuel ->
  materialize (S fuel) root templateDir fs = o.
Proof.
  unfold materialize, effect, reading.
  destruct (ensure_root fs root) as [fs1|e]; [|auto].
  destruct (Fs.readdirSync fs1 templateDir) as [names|e]; [|auto].
  apply for_of_more_fuel. intros file fsi oi. unfold write, reading.
  destruct (targetPath_of root file) as [p|e]; [|auto].
  apply copy_more_fuel.
Qed.

(* ================================================================== *)
(** * [write] and the materialisation *)

Lemma targetPath_of_ok root file :
  valid_name file = true -> inherited file = false ->
  targetPath_of root file = Ok (root ++ [renamed file]).
Proof.
  intros Hv Hi. unfold targetPath_of, renameFiles, renamed.
  destruct (jseqb file (str "_gitignore")).
  - now rewrite join_valid.
  - unfold inherited in Hi. rewrite Hi. now rewrite join_valid.
Qed.

(** A top-level entry named like a property every object inherits makes
    [path.join] throw: [renameFiles[file]] is then a function, not
    [undefined]. *)
Lemma write_inherited_name_throws fuel root templateDir content fs :
  write fuel root templateDir (str "constructor") content fs
  = Failed (TypeError (str "ERR_INVALID_ARG_TYPE")) fs.
Proof. reflexivity. Qed.

Lemma existsb_jseqb_in n l : existsb (jseqb n) l = true <-> In n l.
Proof.
  rewrite existsb_exists. split.
  - intros (m & Hm & E). apply jseqb_eq in E. now subst.
  - intro H. exists n. auto using jseqb_refl.
Qed.

(** [renamed] sends different names of a directory to different names,
    unless the directory holds both [_gitignore] and [.gitignore]. *)
Lemma renamed_injective names :
  existsb (jseqb (str ".gitignore")) names
  && existsb (jseqb (str "_gitignore")) names = false ->
  forall n m, In n names -> In m names -> renamed n = renamed m -> n = m.
Proof.
  intros H n m Hn Hm. unfold renamed.
  destruct (jseqb n (str "_gitignore")) eqn:En, (jseqb m (str "_gitignore")) eqn:Em;
    try apply jseqb_eq in En; try apply jseqb_eq in Em; intro E; subst; auto.
  - exfalso. apply existsb_jseqb_in in Hn, Hm. rewrite Hn, Hm in H. discriminate.
  - exfalso. apply existsb_jseqb_in in Hn, Hm. rewrite Hn, Hm in H. discriminate.
Qed.

Lemma ensure_root_spec fs root :
  creatable fs root = true ->
  exists fs1, ensure_root fs root = Ok fs1 /\
    (forall q, is_prefix q root = false -> lookup fs1 q = lookup fs q) /\
    (forall q, is_prefix q root = true -> exists es, lookup fs1 q = Some (Dir es)).
Proof.
  intro Hc. unfold ensure_root, Fs.existsSync, Fs.mkdirSync.
  destruct (lookup fs root) as [x|] eqn:Hroot; simpl.
  - exists fs. split; [reflexivity|]. split; [reflexivity|].
    intros q Hq.
    destruct (list_eq_dec (list_eq_dec N.eq_dec) q root) as [-> | Hne].
    + destruct x as [data|es]; [|eauto].
      exfalso. now apply (creatable_no_file _ _ Hc root data (is_prefix_refl _)).
    + eapply lookup_prefix_is_dir; eauto.
  - destruct (mkdir_rec_ok root root fs Hc) as (fs1 & Hmk).
    exists fs1. split; [assumption|]. exact (mkdir_rec_spec _ _ _ _ Hmk).
Qed.

Lemma copyable_inv fs templateDir root es :
  copyable fs templateDir root es = true ->
  wfb (Dir es) = true /\ apart templateDir root = true /\ creatable fs root = true /\
  (forall n c, In (n, c) es -> compatb c (lookup fs (root ++ [renamed n])) = true) /\
  (forall n, In n (map fst es) -> inherited n = false) /\
  (forall n m, In n (map fst es) -> In m (map fst es) -> renamed n = renamed m -> n = m).
Proof.
  unfold copyable. rewrite !andb_true_iff, !forallb_forall, negb_true_iff.
  intros (((((Hwf & Hap) & Hcr) & Hco) & Hinh) & Hren).
  repeat split; try assumption.
  - intros n c Hin. exact (Hco _ Hin).
  - intros n Hn. apply in_map_iff in Hn as ([k c] & <- & Hin).
    specialize (Hinh _ Hin). now apply negb_true_iff in Hinh.
  - now apply renamed_injective.
Qed.

(** The materialisation succeeds on a copyable scene, with enough fuel for
    the depth of the template, and does what [materialized] says. *)
Lemma materialize_spec fuel fs templateDir root es :
  lookup fs templateDir = Some (Dir es) ->
  copyable fs templateDir root es = true ->
  height (Dir es) <= fuel ->
  exists fs', materialize fuel root templateDir fs = Done fs' /\
              materialized es root fs fs'.
Proof.
  intros Htpl Hok Hfuel.
  destruct (copyable_inv _ _ _ _ Hok) as (Hwf & Hap & Hcr & Hco & Hinh & Hren).
  destruct (wfb_dir _ Hwf) as (Hnd & Hvalid & Hwfc).
  destruct (ensure_root_spec fs root Hcr) as (fs1 & Hroot & Hout & Hin).
  unfold materialize, effect. rewrite Hroot.
  assert (lookup fs1 templateDir = Some (Dir es)) as Htpl1.
  { rewrite Hout; [assumption | now apply apart_left]. }
  unfold reading at 1. unfold Fs.readdirSync. rewrite Htpl1.
  destruct (for_of_entries es templateDir root renamed
              (fun file => write fuel root templateDir file NoContent) Hap Hren)
    with (l := map fst es) (fs := fs1)
    as (fs' & Hloop & A' & B' & C' & D'); try assumption.
  - intros n c fsi Hc Hsrci (des & Hdesti) Hcompati.
    pose proof (find_entry_in _ _ _ Hc) as Hin_es.
    assert (In n (map fst es)) as Hn by (now apply (in_map fst) in Hin_es).
    unfold write, reading.
    rewrite targetPath_of_ok by auto. cbn [truthy_content].
    rewrite join_valid by auto.
    apply (copy_correct fuel c (templateDir ++ [n]) root (renamed n) fsi des);
      try assumption.
    + pose proof (height_child _ _ _ Hin_es). lia.
    + now apply (Hwfc n).
    + rewrite lookup_app, Hsrci. now apply lookup_entry with (r := []) in Hc.
    + rewrite apart_sym. apply apart_app. rewrite apart_sym. now apply apart_app.
  - apply incl_refl.
  - apply Hin. apply is_prefix_refl.
  - intros n c Hn Hc.
    rewrite Hout by (apply (is_prefix_longer root (renamed n) [])).
    apply Hco. now apply find_entry_in.
  - exists fs'. split; [assumption|]. repeat split.
    + intros q Hq Himg. rewrite A'; [now apply Hout | assumption |].
      intros n r _ ->. destruct (lookup (Dir es) (n :: r)) eqn:E; [|reflexivity].
      exfalso. apply Himg. exists n, r. split; [reflexivity | congruence].
    + exact B'.
    + intros n r data H.
      destruct (lookup_dir_inv _ _ _ _ H) as (c & _ & _ & Hn). now apply C'.
    + intros n r es' H.
      destruct (lookup_dir_inv _ _ _ _ H) as (c & _ & _ & Hn). now apply (D' n r es').
Qed.

(* ================================================================== *)
(** * The claims on materialisation *)

Lemma below_is_not_above (root q : path) :
  is_prefix root q = true -> q <> root -> is_prefix q root = false.
Proof.
  intros H Hne. apply is_prefix_iff in H as (r & ->).
  destruct r as [|x r]; [now rewrite app_nil_r in Hne|]. apply is_prefix_longer.
Qed.

Lemma renamed_other n : n <> str "_gitignore" -> renamed n = n.
Proof. intro H. unfold renamed. apply jseqb_neq in H. now rewrite H. Qed.

(** A completed run of [init] leaves the file system of its
    materialisation. *)
Lemma init_completed argv env u fuel fs st result fs' :
  truthy (arg_help argv) = false ->
  ask FRAMEWORKS argv u = (st, Ok result) ->
  materialize fuel (root_of env (l_vars st))
              (templateDir_of env (template_in argv result)) fs = Done fs' ->
  files (main argv env u fuel fs) = fs' /\
  settled (main argv env u fuel fs) = Returned.
Proof.
  intros Hh H Hm. unfold main, init. rewrite Hh, H, Hm. split; reflexivity.
Qed.

(** On a copyable scene, which has no top-level name that [renameFiles]
    inherits, the materialisation succeeds and the project holds a directory
    wherever the template has one, a [.gitignore] with the bytes of the
    template's top-level [_gitignore], and every file of the template with
    its bytes at its own path (the top-level name through the rename table);
    below a root that did not exist it holds nothing else. *)
Theorem materialize_copies_template fuel fs templateDir root es :
  lookup fs templateDir = Some (Dir es) ->
  copyable fs templateDir root es = true ->
  height (Dir es) <= fuel ->
  exists fs', materialize fuel root templateDir fs = Done fs' /\
    (forall n r es', lookup (Dir es) (n :: r) = Some (Dir es') ->
       exists es'', lookup fs' (root ++ renamed n :: r) = Some (Dir es'')) /\
    (forall data, lookup (Dir es) [str "_gitignore"] = Some (File data) ->
       lookup fs' (root ++ [str ".gitignore"]) = Some (File data)) /\
    (forall n r data, lookup (Dir es) (n :: r) = Some (File data) ->
       lookup fs' (root ++ renamed n :: r) = Some (File data)) /\
    (forall n r data, n <> str "_gitignore" ->
       lookup (Dir es) (n :: r) = Some (File data) ->
       lookup fs' (root ++ n :: r) = Some (File data)) /\
    (lookup fs root = None ->
     forall q, is_prefix root q = true -> q <> root -> ~ image es root q ->
               lookup fs' q = None).
Proof.
  intros Htpl Hok Hfuel.
  destruct (materialize_spec fuel fs templateDir root es Htpl Hok Hfuel)
    as (fs' & Hrun & A & B & C & D).
  exists fs'. split; [assumption|]. split; [exact D|]. split; [|split; [exact C|split]].
  - intros data H. exact (C _ [] data H).
  - intros n r data Hn H. rewrite <- (renamed_other n Hn) at 1. now apply C.
  - intros Hroot q Hq Hne Himg. rewrite A; try assumption.
    + apply is_prefix_iff in Hq as (r & ->). now rewrite lookup_app, Hroot.
    + now apply below_is_not_above.
Qed.

Lemma materialize_copies_template_witness :
  exists fs',
    materialize 3 root_example templateDir_example fs_example = Done fs' /\
    files (main argv_app env_example first_row 3 fs_example) = fs' /\
    lookup fs' (root_example ++ [str ".gitignore"])
      = Some (File [110; 111; 100; 101]%N) /\
    lookup fs' (root_example ++ [str "src"; str "assets"; str "logo.svg"])
      = Some (File [60; 62]%N) /\
    (exists es, lookup fs' (root_example ++ [str "src"; str "assets"]) = Some (Dir es)).
Proof.
  destruct (materialize_copies_template 3 fs_example templateDir_example root_example
              entries_example eq_refl eq_refl (le_n 3))
    as (fs' & Hrun & Hdirs & Hignore & _ & Hfiles & _).
  exists fs'. split; [assumption|]. split.
  - exact (proj1 (init_completed argv_app env_example first_row 3 fs_example _ _ fs'
                    eq_refl (surjective_pairing _) Hrun)).
  - split; [exact (Hignore _ eq_refl)|]. split.
    + refine (Hfiles (str "src") [str "assets"; str "logo.svg"] _ _ eq_refl).
      vm_compute. discriminate.
    + exact (Hdirs (str "src") [str "assets"] _ eq_refl).
Defined.

(** An entry whose name every object inherits makes [write] throw before it
    touches the file system, whatever the content and the fuel. *)
Lemma write_inherited fuel root templateDir file c fs :
  inherited file = true ->
  write fuel root templateDir file c fs
  = Failed (TypeError (str "ERR_INVALID_ARG_TYPE")) fs.
Proof.
  intro Hi. unfold write, targetPath_of, renameFiles.
  destruct (jseqb file (str "_gitignore")) eqn:E.
  - apply jseqb_eq in E. subst file. discriminate Hi.
  - unfold inherited in Hi. rewrite Hi. reflexivity.
Qed.

(** A loop over a listing that holds such a name does not complete. *)
Lemma for_of_inherited fuel root templateDir c files file :
  In file files -> inherited file = true ->
  forall fs fs',
    for_of files (fun f => write fuel root templateDir f c) fs <> Done fs'.
Proof.
  intros Hin Hi. induction files as [|f files IH]; [contradiction|].
  intros fs fs'. simpl.
  destruct Hin as [-> | Hin].
  - rewrite write_inherited by assumption. discriminate.
  - destruct (write fuel root templateDir f c fs); try discriminate.
    now apply IH.
Qed.

(** A materialisation that completes has listed no inherited name in the
    template directory. *)
Lemma materialize_done_no_inherited fuel root templateDir fs fs' :
  materialize fuel root templateDir fs = Done fs' ->
  exists fs1 files,
    ensure_root fs root = Ok fs1 /\
    Fs.readdirSync fs1 templateDir = Ok files /\
    forall file, In file files -> inherited file = false.
Proof.
  unfold materialize, effect, reading. intro H.
  destruct (ensure_root fs root) as [fs1|e]; [|discriminate].
  destruct (Fs.readdirSync fs1 templateDir) as [files|e] eqn:Hread; [|discriminate].
  exists fs1, files. split; [reflexivity|]. split; [assumption|].
  intros file Hin. destruct (inherited file) eqn:Hi; [|reflexivity].
  now destruct (for_of_inherited fuel root templateDir NoContent files file Hin Hi fs1 fs').
Qed.

(** C3: the template of [fs_inherited] has a nested directory, a top-level
    [_gitignore] and a top-level file named [constructor].  For every fuel
    that lets the first file be copied, the materialisation into
    [/home/u/my-app] stops with the [TypeError] of [path.join] at
    [constructor]: [.gitignore] has arrived with the bytes of [_gitignore],
    but [constructor], [index.html] and the directory [src] with its file
    are not in the project.  The whole run prints the error last and ends
    with exit code 0. *)
Theorem inherited_name_stops_copy :
  forall fuel, exists fs',
    materialize (S fuel) root_example templateDir_example fs_inherited
    = Failed (TypeError (str "ERR_INVALID_ARG_TYPE")) fs' /\
    lookup fs' (root_example ++ [str ".gitignore"])
    = Some (File [110; 111; 100; 101]%N) /\
    lookup fs' (root_example ++ [str "constructor"]) = None /\
    lookup fs' (root_example ++ [str "index.html"]) = None /\
    lookup fs' (root_example ++ [str "src"]) = None /\
    lookup fs' (root_example ++ [str "src"; str "main.js"]) = None /\
    files (main argv_app env_example first_row (S fuel) fs_inherited) = fs' /\
    last (console (main argv_app env_example first_row (S fuel) fs_inherited))
         (Log [])
    = ConsoleError (TypeError (str "ERR_INVALID_ARG_TYPE")) /\
    exit_code (main argv_app env_example first_row (S fuel) fs_inherited) = Some 0.
Proof.
  intro fuel. eexists. split; [vm_compute; reflexivity|].
  repeat split; vm_compute; reflexivity.
Qed.

(** C8: the root is created (with what is above it) only when it does not
    exist, and an existing root raises no error; on a copyable scene, with
    a root that may exist and hold entries already, the materialisation
    succeeds, every file that is not at the place of a template entry is
    left as it was, and so is every other node that is neither such a place
    nor on the way to the root. *)
Theorem materialize_keeps_destination :
  (forall fs root, Fs.existsSync fs root = true -> ensure_root fs root = Ok fs) /\
  (forall fs root, Fs.existsSync fs root = false ->
     ensure_root fs root = Fs.mkdirSync fs root /\
     forall fs1, ensure_root fs root = Ok fs1 ->
       forall q, is_prefix q root = true -> exists es, lookup fs1 q = Some (Dir es)) /\
  (forall fuel fs templateDir root es,
     lookup fs templateDir = Some (Dir es) ->
     copyable fs templateDir root es = true ->
     height (Dir es) <= fuel ->
     exists fs', materialize fuel root templateDir fs = Done fs' /\
       (forall q data, lookup fs q = Some (File data) -> ~ image es root q ->
                       lookup fs' q = Some (File data)) /\
       (forall q, is_prefix q root = false -> ~ image es root q ->
                  lookup fs' q = lookup fs q)).
Proof.
  split; [|split].
  - intros fs root H. unfold ensure_root. now rewrite H.
  - intros fs root H. unfold ensure_root. rewrite H. simpl. split; [reflexivity|].
    intros fs1 Hmk. exact (proj2 (mkdir_rec_spec _ _ _ _ Hmk)).
  - intros fuel fs templateDir root es Htpl Hok Hfuel.
    destruct (materialize_spec fuel fs templateDir root es Htpl Hok Hfuel)
      as (fs' & Hrun & A & _).
    exists fs'. split; [assumption|]. split; [|exact A].
    intros q data Hq Himg. rewrite A; try assumption.
    destruct (is_prefix q root) eqn:E; [|reflexivity].
    destruct (copyable_inv _ _ _ _ Hok) as (_ & _ & Hcr & _).
    now destruct (creatable_no_file _ _ Hcr q data E).
Qed.

(** A name below the root that no top-level entry is renamed to is not
    the place of a template entry. *)
Lemma not_image_top es root x :
  forallb (fun e => negb (jseqb (renamed (fst e)) x)) es = true ->
  ~ image es root (root ++ [x]).
Proof.
  intros H (n & r & E & Hn). apply app_inv_head in E. injection E as E <-.
  destruct (lookup (Dir es) [n]) as [c|] eqn:El; [|congruence].
  destruct (lookup_dir_inv _ _ _ _ El) as (_ & _ & _ & Hin).
  apply in_map_iff in Hin as ([k d] & <- & Hin).
  rewrite forallb_forall in H. specialize (H _ Hin). cbn [fst] in H.
  rewrite E, jseqb_refl in H. discriminate.
Qed.

Lemma materialize_keeps_destination_witness :
  ensure_root fs_example root_example = Ok fs_example /\
  exists fs',
    materialize 3 root_example templateDir_example fs_example = Done fs' /\
    lookup fs' (root_example ++ [str "README.md"]) = Some (File [35]%N) /\
    lookup fs' (root_example ++ [str "index.html"]) = Some (File [60; 104; 62]%N).
Proof.
  destruct materialize_keeps_destination as (Hexists & _ & Hframe).
  split; [exact (Hexists fs_example root_example eq_refl)|].
  destruct (Hframe 3 fs_example templateDir_example root_example entries_example
              eq_refl eq_refl (le_n 3)) as (fs' & Hrun & Hfiles & _).
  exists fs'. split; [assumption|]. split.
  - exact (Hfiles (root_example ++ [str "README.md"]) [35%N] eq_refl
                  (not_image_top entries_example root_example (str "README.md") eq_refl)).
  - revert Hrun. vm_compute. intro H. injection H as <-. reflexivity.
Defined.

(** C10: a [_gitignore] inside a subdirectory of the template arrives in
    the project under the name [_gitignore], at the same place below the
    top-level entry, and the [.gitignore] beside it is not written: the
    rename table is applied to the entries of the template directory
    only. *)
Theorem nested_gitignore_keeps_name fuel fs templateDir root es :
  lookup fs templateDir = Some (Dir es) ->
  copyable fs templateDir root es = true ->
  height (Dir es) <= fuel ->
  exists fs', materialize fuel root templateDir fs = Done fs' /\
    forall n r data,
      lookup (Dir es) (n :: r ++ [str "_gitignore"]) = Some (File data) ->
      lookup fs' (root ++ renamed n :: r ++ [str "_gitignore"]) = Some (File data) /\
      (n <> str "_gitignore" ->
       lookup fs' (root ++ n :: r ++ [str "_gitignore"]) = Some (File data)) /\
      (lookup (Dir es) (n :: r ++ [str ".gitignore"]) = None ->
       lookup fs' (root ++ renamed n :: r ++ [str ".gitignore"])
       = lookup fs (root ++ renamed n :: r ++ [str ".gitignore"])).
Proof.
  intros Htpl Hok Hfuel.
  destruct (materialize_spec fuel fs templateDir root es Htpl Hok Hfuel)
    as (fs' & Hrun & A & _ & C & _).
  destruct (copyable_inv _ _ _ _ Hok) as (_ & _ & _ & _ & _ & Hren).
  exists fs'. split; [assumption|]. intros n r data H.
  split; [now apply C|]. split.
  - intro Hn. rewrite <- (renamed_other n Hn) at 1. now apply C.
  - intro Hnone. apply A; [apply is_prefix_longer|].
    intros (m & r' & E & Hm). apply app_inv_head in E. injection E as E <-.
    destruct (lookup_dir_inv _ _ _ _ H) as (_ & _ & _ & Hn).
    assert (In m (map fst es)) as Hm'.
    { destruct (lookup (Dir es) (m :: r ++ [str ".gitignore"])) eqn:El; [|congruence].
      now destruct (lookup_dir_inv _ _ _ _ El) as (_ & _ & _ & Hm'). }
    apply Hren in E; try assumption. subst m. contradiction.
Qed.

Lemma nested_gitignore_keeps_name_witness :
  exists fs',
    materialize 3 root_example templateDir_example fs_example = Done fs' /\
    lookup fs' (root_example ++ [str "src"; str "_gitignore"]) = Some (File [42]%N) /\
    lookup fs' (root_example ++ [str "src"; str ".gitignore"]) = None.
Proof.
  destruct (nested_gitignore_keeps_name 3 fs_example templateDir_example root_example
              entries_example eq_refl eq_refl (le_n 3)) as (fs' & Hrun & Hnested).
  exists fs'. split; [assumption|].
  destruct (Hnested (str "src") [] [42%N] eq_refl) as (_ & Hkept & Hnot).
  split.
  - apply Hkept. vm_compute. discriminate.
  - exact (Hnot eq_refl).
Defined.

(* ================================================================== *)
(** * Beyond the claims: the template flag and the target directory *)

Lemma fold_concat_names l : forall acc,
  fold_left concat_names l acc =
  acc ++ flat_map (fun b => match b with
                            | Some names => map Some names
                            | None => [None]
                            end) l.
Proof.
  induction l as [|b l IH]; intro acc; simpl.
  - now rewrite app_nil_r.
  - rewrite IH. destruct b; simpl; now rewrite <- app_assoc.
Qed.

(** [TEMPLATES], for any catalog, is the list of its variant ids. *)
Lemma templates_of_listed frameworks :
  templates_of frameworks = listed_ids frameworks.
Proof.
  unfold templates_of, listed_ids. rewrite fold_concat_names. simpl.
  induction frameworks as [|f fw IH]; simpl; [reflexivity|].
  rewrite IH. destruct (f_variants f); simpl; [|reflexivity].
  now rewrite map_map.
Qed.

Lemma in_listed_ids frameworks id :
  In (Some id) (listed_ids frameworks) <->
  exists f vs v, In f frameworks /\ f_variants f = Some vs /\ In v vs /\ v_name v = id.
Proof.
  unfold listed_ids. rewrite in_flat_map. split.
  - intros (f & Hf & Hin). destruct (f_variants f) as [vs|] eqn:E.
    + apply in_map_iff in Hin as (v & Hv & Hin). injection Hv as Hv. eauto 7.
    + destruct Hin as [Hin | []]. discriminate.
  - intros (f & vs & v & Hf & Hvs & Hv & <-). exists f. split; [assumption|].
    rewrite Hvs. apply in_map_iff. eauto.
Qed.

(** X1: whatever the catalog, the test that skips the framework question
    accepts a flag value exactly when it is a string, not empty, that is the
    id of a variant of some framework of the catalog. *)
Theorem template_flag_validity frameworks a :
  truthy a && includes (templates_of frameworks) a = true <->
  exists f vs v,
    In f frameworks /\ f_variants f = Some vs /\ In v vs /\
    v_name v <> [] /\ a = AString (v_name v).
Proof.
  rewrite templates_of_listed, andb_true_iff. split.
  - intros (Ht & Hi). destruct a as [|s|b t]; [discriminate Ht | | discriminate Hi].
    apply includes_string, in_listed_ids in Hi as (f & vs & v & Hf & Hvs & Hv & <-).
    exists f, vs, v. repeat split; try assumption.
    intro E. rewrite E in Ht. discriminate.
  - intros (f & vs & v & Hf & Hvs & Hv & Hne & ->). split.
    + simpl. destruct (v_name v); [congruence | reflexivity].
    + apply includes_string, in_listed_ids. eauto 7.
Qed.

Lemma template_flag_validity_witness :
  (exists f vs v,
     In f bare_catalog /\ f_variants f = Some vs /\ In v vs /\
     v_name v <> [] /\ AString (str "vue") = AString (v_name v)) /\
  truthy (AString (str "vanilla"))
  && includes (templates_of bare_catalog) (AString (str "vanilla")) = false.
Proof.
  split.
  - apply (proj1 (template_flag_validity bare_catalog (AString (str "vue")))).
    reflexivity.
  - reflexivity.
Defined.

Lemma known_flag_is_template argv u st result :
  ask FRAMEWORKS argv u = (st, Ok result) ->
  known_template (argTemplate_of argv) = true ->
  template_in argv result = argTemplate_of argv.
Proof.
  intros H Hk. unfold template_in.
  rewrite (no_variant_answer _ _ _ _ H); [reflexivity|].
  destruct (asked (str "variant") st) eqn:E; [|reflexivity].
  destruct (variant_needs_framework _ _ _ _ _ H E) as (Hf & _).
  revert Hk Hf. unfold asked, known_template.
  split_table H; rewrite Hasked; unfold TEMPLATES in *; intros Hk Hf;
    try congruence; absurd_asked.
Qed.

Lemma known_template_inv a :
  known_template a = true -> exists id, a = AString id /\ In (Some id) TEMPLATES.
Proof.
  unfold known_template. rewrite andb_true_iff. intros (_ & Hi).
  destruct a as [|s|b t]; simpl in Hi.
  - exfalso. revert Hi. vm_compute. discriminate.
  - exists s. split; [reflexivity | now apply includes_string].
  - discriminate.
Qed.

Lemma catalog_ids_no_slash id :
  In (Some id) TEMPLATES -> existsb is_slash id = false.
Proof.
  intro H.
  assert (forallb (fun e => match e with
                            | Some n => negb (existsb is_slash n)
                            | None => true
                            end) TEMPLATES = true) as Hall by reflexivity.
  rewrite forallb_forall in Hall. specialize (Hall _ H). simpl in Hall.
  now apply negb_true_iff.
Qed.

(** The template directory of an id without a slash is the directory
    [template-<id>] beside the parent directory of the module file. *)
Lemma templateDir_of_id env id :
  existsb is_slash id = false ->
  templateDir_of env (AString id)
  = removelast (removelast (module_file env)) ++ [str "template-" ++ id].
Proof.
  intro Hs. unfold templateDir_of, Path.resolve. cbn [fold_left to_text].
  change (fold_left Path.walk (Path.segments (str "../..")) (module_file env))
    with (removelast (removelast (module_file env))).
  change (str "template-" ++ id)
    with (116%N :: (tl (str "template-") ++ id)).
  cbn [is_slash]. change (is_slash 116%N) with false. cbn iota.
  unfold Path.segments. rewrite split_no_slash.
  - reflexivity.
  - simpl. exact Hs.
Qed.

(** X2: in a completed run whose menu cursors are on rows, the template is
    a variant id of the catalog, whether it came from the flag or from the
    menus, and the template directory is [template-<id>] beside the parent
    directory of the module file. *)
Theorem completed_run_template argv env u st result :
  ask FRAMEWORKS argv u = (st, Ok result) ->
  (known_template (argTemplate_of argv) = false ->
   on_a_row FRAMEWORKS (r_pick (u (str "framework"))) = true /\
   forall f vs, nth_error FRAMEWORKS (r_pick (u (str "framework"))) = Some f ->
                f_variants f = Some vs ->
                on_a_row vs (r_pick (u (str "variant"))) = true) ->
  exists id,
    In (Some id) TEMPLATES /\
    template_in argv result = AString id /\
    templateDir_of env (template_in argv result)
    = removelast (removelast (module_file env)) ++ [str "template-" ++ id].
Proof.
  intros H Hrows.
  assert (exists id, In (Some id) TEMPLATES /\ template_in argv result = AString id)
    as (id & Hid & Ht).
  { destruct (known_template (argTemplate_of argv)) eqn:Hk.
    - rewrite (known_flag_is_template _ _ _ _ H Hk).
      destruct (known_template_inv _ Hk) as (id & -> & Hid). eauto.
    - destruct (Hrows eq_refl) as (Hrow & Hvrow).
      pose proof (variant_asked_when_unknown _ _ _ _ H Hk Hrow) as Hva.
      destruct (chosen_variant_is_template _ _ _ _ H Hva) as (f & vs & Hf & Hvs & Hpick).
      specialize (Hvrow f vs Hf Hvs). unfold on_a_row in Hvrow.
      apply Nat.ltb_lt in Hvrow.
      destruct (nth_error vs (r_pick (u (str "variant")))) as [v|] eqn:Ev;
        [|apply nth_error_None in Ev; lia].
      exists (v_name v). split; [|now apply Hpick].
      apply includes_string.
      pose proof (variant_id_known f vs v) as Hkn. unfold known_template in Hkn.
      apply nth_error_In in Hf, Ev. specialize (Hkn Hf Hvs Ev).
      now apply andb_true_iff in Hkn. }
  exists id. split; [assumption|]. split; [assumption|].
  rewrite Ht. apply templateDir_of_id. now apply catalog_ids_no_slash.
Qed.

Lemma completed_run_template_witness :
  exists id,
    In (Some id) TEMPLATES /\
    template_in argv_bogus (match snd (ask FRAMEWORKS argv_bogus second_row) with
                            | Ok result => result
                            | Throw _ => []
                            end) = AString id /\
    templateDir_of env_example (AString id)
    = [str "opt"; str "vite-cli"; str "template-" ++ id].
Proof.
  destruct (completed_run_template argv_bogus env_example second_row
              (fst (ask FRAMEWORKS argv_bogus second_row))
              (match snd (ask FRAMEWORKS argv_bogus second_row) with
               | Ok result => result
               | Throw _ => []
               end) eq_refl) as (id & Hid & Ht & Hdir).
  - intros _. split; [reflexivity|].
    intros f vs Hf Hvs. injection Hf as <-. injection Hvs as <-. reflexivity.
  - exists id. split; [assumption|]. split; [assumption|].
    rewrite Ht in Hdir. exact Hdir.
Defined.

Lemma starts_with_dropWhileEnd_other p q s :
  starts_with q s = false -> starts_with q (dropWhileEnd p s) = false.
Proof.
  intro H. destruct (dropWhileEnd_split p s) as (t & E & _ & _).
  destruct (dropWhileEnd p s) as [|c r]; [reflexivity|].
  rewrite E in H. exact H.
Qed.

(** What [formatTargetDir] returns neither ends with a slash nor starts
    with whitespace. *)
Lemma formatted_shape s r :
  formatTargetDir (Some s) = Some r ->
  ends_with is_slash r = false /\ starts_with is_whitespace r = false.
Proof.
  simpl. intro H. injection H as <-. split.
  - destruct (replace_trailing_slashes_spec (trim s)) as (sl & _ & _ & He). exact He.
  - apply starts_with_dropWhileEnd_other.
    destruct (trim_spec s) as (l & t & _ & _ & _ & Hs & _). exact Hs.
Qed.

Lemma or_str_shape a :
  (forall r, a = Some r ->
             ends_with is_slash r = false /\ starts_with is_whitespace r = false) ->
  or_str a defaultTargetDir <> [] /\
  ends_with is_slash (or_str a defaultTargetDir) = false /\
  starts_with is_whitespace (or_str a defaultTargetDir) = false.
Proof.
  intro H. destruct a as [[|c r]|]; simpl.
  - split; [discriminate | split; reflexivity].
  - destruct (H _ eq_refl) as (He & Hs). split; [discriminate | auto].
  - split; [discriminate | split; reflexivity].
Qed.

(** Only the last state event of the project-name prompt counts: every
    event assigns [targetDir] afresh. *)
Lemma fire_states_projectName a r vars :
  fire_states (projectName_question a) r vars
  = or_str (formatTargetDir (Some (text_value (projectName_question a) r)))
           defaultTargetDir.
Proof.
  unfold fire_states. rewrite fold_left_app. reflexivity.
Qed.

Lemma name_skipped_not_asked frameworks argv u :
  truthy_str (formatTargetDir (nth_error (positional argv) 0)) = true ->
  asked (str "projectName") (fst (ask frameworks argv u)) = false.
Proof.
  intro Hs. destruct (ask frameworks argv u) as [st r] eqn:H. cbn [fst].
  apply ask_table in H. unfold decision_table in H. rewrite Hs in H.
  unfold asked.
  repeat match type of H with
  | context [if ?c then _ else _] => destruct c eqn:?
  | context [match nth_error ?l ?n with _ => _ end] => destruct (nth_error l n) eqn:?
  | context [match f_variants ?f with _ => _ end] => destruct (f_variants f) eqn:?
  end; injection H as Hasked Hres; rewrite <- Hasked; try reflexivity.
  discriminate.
Qed.

(** X3: the working target directory at the end of the question loop.  A
    positional argument that formats to a non-empty string is the target
    directory and the project-name question is not shown; otherwise the
    target directory is the formatted text the prompt ended with (typed, or
    the default), or [vite-project] when that is empty.  In every case it is
    not empty, does not end with a slash and does not start with
    whitespace. *)
Theorem target_dir_resolution frameworks argv u :
  (forall p, formatTargetDir (nth_error (positional argv) 0) = Some p -> p <> [] ->
     l_vars (fst (ask frameworks argv u)) = p /\
     asked (str "projectName") (fst (ask frameworks argv u)) = false) /\
  (truthy_str (formatTargetDir (nth_error (positional argv) 0)) = false ->
     l_vars (fst (ask frameworks argv u))
     = or_str (formatTargetDir (Some (submitted_name u))) defaultTargetDir) /\
  l_vars (fst (ask frameworks argv u)) <> [] /\
  ends_with is_slash (l_vars (fst (ask frameworks argv u))) = false /\
  starts_with is_whitespace (l_vars (fst (ask frameworks argv u))) = false.
Proof.
  rewrite ask_targetDir. unfold targetDir_after.
  split; [|split].
  - intros p Hp Hne. split.
    + rewrite Hp. destruct p; [congruence | reflexivity].
    + apply name_skipped_not_asked. rewrite Hp. destruct p; [congruence | reflexivity].
  - intro Hs. rewrite Hs, fire_states_projectName. reflexivity.
  - destruct (truthy_str _) eqn:Hs.
    + apply or_str_shape. intros r Hr.
      destruct (nth_error (positional argv) 0) as [s|]; [|discriminate].
      now apply (formatted_shape s).
    + rewrite fire_states_projectName. apply or_str_shape. intros r Hr.
      now apply (formatted_shape _ _ Hr).
Qed.

Lemma target_dir_resolution_witness :
  l_vars (fst (ask FRAMEWORKS argv_bogus aborting)) = str "my-app" /\
  l_vars (fst (ask FRAMEWORKS argv_none
                   (fun _ => mkResponse [str "x"] (str " apps/demo// ") 0 false)))
  = str "apps/demo".
Proof.
  destruct (target_dir_resolution FRAMEWORKS argv_bogus aborting) as (Hpos & _).
  destruct (target_dir_resolution FRAMEWORKS argv_none
              (fun _ => mkResponse [str "x"] (str " apps/demo// ") 0 false))
    as (_ & Htyped & _).
  split.
  - apply (Hpos (str "my-app")); [reflexivity | discriminate].
  - rewrite Htyped by reflexivity. reflexivity.
Defined.

(* ================================================================== *)
(** * Beyond the claims: the project root and the closing lines *)

Lemma walk_dotdot p : Path.walk p (str "..") = removelast p.
Proof. reflexivity. Qed.

Lemma walk_append p n : valid_name n = true -> Path.walk p n = p ++ [n].
Proof.
  unfold valid_name. rewrite !andb_true_iff, !negb_true_iff.
  intros (((H0 & H1) & H2) & _). unfold Path.walk. now rewrite H0, H1, H2.
Qed.

Lemma fold_walk_kept segs : forall p,
  existsb (jseqb (str "..")) segs = false ->
  fold_left Path.walk segs p = p ++ filter kept_segment segs.
Proof.
  induction segs as [|s segs IH]; intros p H; cbn [existsb fold_left filter] in *.
  - now rewrite app_nil_r.
  - apply orb_false_iff in H as (Hs & Hrest). rewrite IH by assumption.
    unfold Path.walk, kept_segment.
    destruct (jseqb s [] || jseqb s (str ".")); cbn [negb]; [reflexivity|].
    rewrite jseqb_sym, Hs. now rewrite <- app_assoc.
Qed.

(** X4: when no segment of the target directory is [..], the project root
    is the working directory followed by the segments of the target
    directory that are neither empty nor [.]; so it lies in the working
    directory, also for a target directory that starts with a slash. *)
Theorem root_under_cwd env targetDir :
  existsb (jseqb (str "..")) (Path.segments targetDir) = false ->
  root_of env targetDir = cwd env ++ filter kept_segment (Path.segments targetDir) /\
  is_prefix (cwd env) (root_of env targetDir) = true.
Proof.
  intro H.
  assert (root_of env targetDir
          = cwd env ++ filter kept_segment (Path.segments targetDir)) as E.
  { unfold root_of, Path.join. cbn [fold_left]. now apply fold_walk_kept. }
  split; [exact E|]. rewrite E. apply is_prefix_app.
Qed.

Lemma root_under_cwd_witness :
  root_of env_example (str "/tmp/./x") = [str "home"; str "u"; str "tmp"; str "x"].
Proof.
  exact (proj1 (root_under_cwd env_example (str "/tmp/./x") eq_refl)).
Defined.

(** ** The [cd] line *)

Lemma existsb_reversed {A} (f : A -> bool) l : existsb f (rev l) = existsb f l.
Proof.
  induction l as [|a l IH]; simpl; [reflexivity|].
  rewrite existsb_app, IH. simpl. rewrite orb_false_r. apply orb_comm.
Qed.

Lemma split_segments_no_slash s : forall cur,
  existsb is_slash cur = false ->
  forallb (fun x => negb (existsb is_slash x)) (Path.split_on_slash s cur) = true.
Proof.
  induction s as [|c s IH]; intros cur Hcur; simpl.
  - rewrite existsb_reversed, Hcur. reflexivity.
  - destruct (is_slash c) eqn:Hc; simpl.
    + rewrite existsb_reversed, Hcur. simpl. now apply IH.
    + apply IH. simpl. now rewrite Hc.
Qed.

Lemma forallb_removelast {A} (f : A -> bool) l :
  forallb f l = true -> forallb f (removelast l) = true.
Proof.
  induction l as [|a l IH]; simpl; [auto|].
  rewrite andb_true_iff. intros (Ha & Hl). destruct l as [|b l]; [reflexivity|].
  simpl in *. rewrite Ha. simpl. now apply IH.
Qed.

Lemma walk_keeps_valid p seg :
  forallb valid_name p = true -> existsb is_slash seg = false ->
  forallb valid_name (Path.walk p seg) = true.
Proof.
  intros Hp Hs. unfold Path.walk.
  destruct (jseqb seg [] || jseqb seg (str ".")) eqn:E1; [assumption|].
  destruct (jseqb seg (str "..")) eqn:E2; [now apply forallb_removelast|].
  rewrite forallb_app, Hp. simpl. rewrite andb_true_r.
  apply orb_false_iff in E1 as (E0 & E1). unfold valid_name.
  now rewrite E0, E1, E2, Hs.
Qed.

Lemma fold_walk_keeps_valid segs : forall p,
  forallb valid_name p = true ->
  forallb (fun x => negb (existsb is_slash x)) segs = true ->
  forallb valid_name (fold_left Path.walk segs p) = true.
Proof.
  induction segs as [|s segs IH]; intros p Hp Hs; simpl in *; [assumption|].
  apply andb_true_iff in Hs as (Hs & Hrest). apply IH; [|assumption].
  apply walk_keeps_valid; [assumption | now apply negb_true_iff].
Qed.

(** The components of the project root are names, when those of the
    working directory are. *)
Lemma root_of_valid env targetDir :
  forallb valid_name (cwd env) = true ->
  forallb valid_name (root_of env targetDir) = true.
Proof.
  intro H. unfold root_of, Path.join. cbn [fold_left].
  apply fold_walk_keeps_valid; [assumption|].
  now apply split_segments_no_slash.
Qed.

Lemma split_app_slash a rest : forall cur,
  existsb is_slash a = false ->
  Path.split_on_slash (a ++ slash :: rest) cur
  = (rev cur ++ a) :: Path.split_on_slash rest [].
Proof.
  induction a as [|c a IH]; intros cur H; simpl in *.
  - now rewrite app_nil_r.
  - apply orb_false_iff in H as (Hc & Ha). rewrite Hc, IH by assumption.
    simpl. now rewrite <- app_assoc.
Qed.

Lemma segments_intercalate l :
  l <> [] -> forallb (fun x => negb (existsb is_slash x)) l = true ->
  Path.segments (Path.intercalate l) = l.
Proof.
  unfold Path.segments. induction l as [|a l IH]; intros Hne H; [congruence|].
  simpl in H. apply andb_true_iff in H as (Ha & Hl). apply negb_true_iff in Ha.
  destruct l as [|b l].
  - simpl. now rewrite split_no_slash.
  - change (Path.intercalate (a :: b :: l))
      with (a ++ slash :: Path.intercalate (b :: l)).
    rewrite split_app_slash by assumption. simpl rev. simpl app at 1.
    f_equal. apply IH; [discriminate | assumption].
Qed.

Lemma strip_common_spec a : forall b up down,
  Path.strip_common a b = (up, down) ->
  exists c, a = c ++ up /\ b = c ++ down.
Proof.
  induction a as [|x a IH]; intros b up down H; simpl in H.
  - injection H as <- <-. now exists [].
  - destruct b as [|y b]; [injection H as <- <-; now exists []|].
    destruct (jseqb x y) eqn:E.
    + apply jseqb_eq in E. subst y. destruct (IH _ _ _ H) as (c & -> & ->).
      now exists (x :: c).
    + injection H as <- <-. now exists [].
Qed.

Lemma fold_walk_up k : forall c tail,
  List.length tail = k ->
  fold_left Path.walk (repeat (str "..") k) (c ++ tail) = c.
Proof.
  induction k as [|k IH]; intros c tail Hlen.
  - destruct tail; [|discriminate]. simpl. now rewrite app_nil_r.
  - simpl repeat. cbn [fold_left]. rewrite walk_dotdot.
    assert (tail <> []) as Hne by (intros ->; discriminate).
    rewrite removelast_app by assumption. apply IH.
    destruct (exists_last Hne) as (t' & x & ->).
    rewrite removelast_last. rewrite length_app in Hlen. simpl in Hlen. lia.
Qed.

Lemma fold_walk_down down : forall c,
  forallb valid_name down = true -> fold_left Path.walk down c = c ++ down.
Proof.
  induction down as [|n down IH]; intros c H; simpl in *.
  - now rewrite app_nil_r.
  - apply andb_true_iff in H as (Hn & Hd). rewrite walk_append by assumption.
    rewrite IH by assumption. now rewrite <- app_assoc.
Qed.

Lemma map_dotdot (up : path) :
  map (fun _ => str "..") up = repeat (str "..") (List.length up).
Proof. induction up; simpl; congruence. Qed.

Lemma valid_no_slash n : valid_name n = true -> negb (existsb is_slash n) = true.
Proof. unfold valid_name. rewrite !andb_true_iff. tauto. Qed.

(** [path.relative] undone by [path.join], for paths made of names. *)
Lemma join_relative from to :
  forallb valid_name from = true -> forallb valid_name to = true ->
  Path.join from [Path.relative from to] = to.
Proof.
  intros Hfrom Hto. unfold Path.relative, Path.join. cbn [fold_left].
  destruct (Path.strip_common from to) as [up down] eqn:E.
  destruct (strip_common_spec _ _ _ _ E) as (c & -> & ->).
  rewrite forallb_app in Hto. apply andb_true_iff in Hto as (_ & Hdown).
  destruct (map (fun _ => str "..") up ++ down) as [|s l] eqn:El.
  - apply app_eq_nil in El as (Hup & ->). destruct up; [|discriminate].
    reflexivity.
  - rewrite segments_intercalate, <- El.
    + rewrite fold_left_app, map_dotdot, fold_walk_up by reflexivity.
      now apply fold_walk_down.
    + discriminate.
    + rewrite <- El, forallb_app. apply andb_true_iff. split.
      * rewrite map_dotdot. clear. induction (List.length up); simpl; auto.
      * rewrite forallb_forall in *. intros x Hx. apply valid_no_slash. auto.
Qed.

Lemma relative_same p : Path.relative p p = [].
Proof.
  unfold Path.relative.
  assert (Path.strip_common p p = ([], [])) as ->.
  { induction p as [|x p IH]; simpl; [reflexivity|]. now rewrite jseqb_refl. }
  reflexivity.
Qed.

(** X5: the path of the closing [cd] line leads from the working directory
    to the project root, and it is empty exactly when the root is the
    working directory, the case in which the line is left out. *)
Theorem cd_leads_to_root env targetDir :
  forallb valid_name (cwd env) = true ->
  Path.join (cwd env) [Path.relative (cwd env) (root_of env targetDir)]
  = root_of env targetDir /\
  (Path.relative (cwd env) (root_of env targetDir) = [] <->
   root_of env targetDir = cwd env).
Proof.
  intro H. pose proof (root_of_valid env targetDir H) as Hroot.
  pose proof (join_relative _ _ H Hroot) as Hjoin.
  split; [exact Hjoin|]. split.
  - intro E. rewrite E in Hjoin. symmetry. exact Hjoin.
  - intros ->. apply relative_same.
Qed.

Lemma cd_leads_to_root_witness :
  Path.relative (cwd env_example) (root_of env_example (str "../v/my app"))
  = str "../v/my app" /\
  Path.join (cwd env_example) [str "../v/my app"]
  = [str "home"; str "v"; str "my app"].
Proof.
  destruct (cd_leads_to_root env_example (str "../v/my app") eq_refl) as (Hjoin & _).
  split; [reflexivity|].
  exact Hjoin.
Defined.

(* ================================================================== *)
(** * Beyond the claims: what a run never does to the file system *)

Lemma keeps_kinds_refl fs : keeps_kinds fs fs.
Proof. intros q x H. eauto. Qed.

Lemma keeps_kinds_trans a b c :
  keeps_kinds a b -> keeps_kinds b c -> keeps_kinds a c.
Proof.
  intros Hab Hbc q x H. destruct (Hab _ _ H) as (y & Hy & Ey).
  destruct (Hbc _ _ Hy) as (z & Hz & Ez). exists z. split; [assumption | congruence].
Qed.

(** Replacing an entry by a node of the same kind that keeps the kinds
    below it keeps the kinds of the directory. *)
Lemma keeps_kinds_set_entry es c ch ch' :
  find_entry es c = Some ch -> is_dir ch' = is_dir ch -> keeps_kinds ch ch' ->
  keeps_kinds (Dir es) (Dir (set_entry es c ch')).
Proof.
  intros Hf Hd Hk [|x q] y H.
  - injection H as <-. simpl. eauto.
  - simpl in H |- *. destruct (jseqb c x) eqn:E.
    + apply jseqb_eq in E. subst x. rewrite find_set_same. rewrite Hf in H. now apply Hk.
    + apply jseqb_neq in E. rewrite find_set_other by assumption.
      destruct (find_entry es x); [eauto | discriminate].
Qed.

Lemma keeps_kinds_new_entry es c ch' :
  find_entry es c = None -> keeps_kinds (Dir es) (Dir (set_entry es c ch')).
Proof.
  intros Hf [|x q] y H.
  - injection H as <-. simpl. eauto.
  - simpl in H |- *. destruct (jseqb c x) eqn:E.
    + apply jseqb_eq in E. subst x. rewrite Hf in H. discriminate.
    + apply jseqb_neq in E. rewrite find_set_other by assumption.
      destruct (find_entry es x); [eauto | discriminate].
Qed.

Lemma mkdir_rec_kind whole rest : forall t t',
  Fs.mkdir_rec whole t rest = Ok t' -> is_dir t' = is_dir t.
Proof.
  destruct rest as [|c rest]; intros t t' H; simpl in H; destruct t as [d|es];
    try discriminate.
  - now injection H as <-.
  - destruct (find_entry es c);
      destruct (Fs.mkdir_rec whole _ rest); try discriminate; now injection H as <-.
Qed.

Lemma mkdir_rec_keeps_kinds whole rest : forall t t',
  Fs.mkdir_rec whole t rest = Ok t' -> keeps_kinds t t'.
Proof.
  induction rest as [|c rest IH]; intros t t' H; simpl in H.
  - destruct t; [discriminate|]. injection H as <-. apply keeps_kinds_refl.
  - destruct t as [d|es]; [discriminate|].
    destruct (find_entry es c) as [ch|] eqn:Hf.
    + destruct (Fs.mkdir_rec whole ch rest) as [ch'|] eqn:Hch; [|discriminate].
      injection H as <-.
      apply (keeps_kinds_set_entry es c ch ch' Hf); eauto using mkdir_rec_kind.
    + destruct (Fs.mkdir_rec whole (Dir []) rest) as [ch'|]; [|discriminate].
      injection H as <-. now apply keeps_kinds_new_entry.
Qed.

Lemma write_rec_kind sys whole data rest : forall t t',
  Fs.write_rec sys whole t rest data = Ok t' -> is_dir t' = is_dir t.
Proof.
  destruct rest as [|c rest]; intros t t' H; simpl in H; destruct t as [d|es];
    try discriminate.
  - now injection H as <-.
  - destruct (find_entry es c).
    + destruct (Fs.write_rec sys whole _ rest data); [|discriminate]. now injection H as <-.
    + destruct rest; [|discriminate]. now injection H as <-.
Qed.

Lemma write_rec_keeps_kinds sys whole data rest : forall t t',
  Fs.write_rec sys whole t rest data = Ok t' -> keeps_kinds t t'.
Proof.
  induction rest as [|c rest IH]; intros t t' H; simpl in H.
  - destruct t as [d|es]; [|discriminate]. injection H as <-.
    intros [|x q] y Hy; [|discriminate]. injection Hy as <-. simpl. eauto.
  - destruct t as [d|es]; [discriminate|].
    destruct (find_entry es c) as [ch|] eqn:Hf.
    + destruct (Fs.write_rec sys whole ch rest data) as [ch'|] eqn:Hch; [|discriminate].
      injection H as <-.
      apply (keeps_kinds_set_entry es c ch ch' Hf); eauto using write_rec_kind.
    + destruct rest; [|discriminate]. injection H as <-.
      now apply keeps_kinds_new_entry.
Qed.

(** A loop keeps what each of its rounds keeps. *)
Lemma for_of_preserves (R : node -> node -> Prop) (I : node -> Prop)
    (body : jsstring -> node -> outcome) l :
  (forall fs, R fs fs) ->
  (forall a b c, R a b -> R b c -> R a c) ->
  (forall file fs fs', In file l -> I fs -> final_fs (body file fs) = Some fs' ->
                       I fs' /\ R fs fs') ->
  forall fs fs', I fs -> final_fs (for_of l body fs) = Some fs' -> I fs' /\ R fs fs'.
Proof.
  intros Hrefl Htrans. induction l as [|file l IH]; intros Hbody fs fs' HI H; simpl in H.
  - injection H as <-. auto.
  - destruct (body file fs) as [fs1|e fs1|] eqn:E; simpl in H.
    + destruct (Hbody file fs fs1 (or_introl eq_refl) HI) as (HI1 & HR1);
        [now rewrite E|].
      destruct (IH (fun f a b Hin => Hbody f a b (or_intror Hin)) fs1 fs' HI1 H)
        as (HI' & HR').
      eauto.
    + injection H as <-. apply (Hbody file fs fs1); [now left | assumption | now rewrite E].
    + discriminate.
Qed.

Lemma copy_keeps_kinds fuel : forall src dest fs fs',
  final_fs (copy fuel src dest fs) = Some fs' -> keeps_kinds fs fs'.
Proof.
  induction fuel as [|k IH]; intros src dest fs fs' H; [discriminate|].
  rewrite copy_S in H. unfold reading in H.
  destruct (Fs.statSync fs src) as [[|]|e].
  - unfold copyDir_with, effect, reading, Fs.mkdirSync in H.
    destruct (Fs.mkdir_rec dest fs dest) as [fs1|e] eqn:Hmk;
      [|injection H as <-; apply keeps_kinds_refl].
    apply (keeps_kinds_trans _ fs1); [eauto using mkdir_rec_keeps_kinds|].
    destruct (Fs.readdirSync fs1 src) as [names|e];
      [|injection H as <-; apply keeps_kinds_refl].
    refine (proj2 (for_of_preserves keeps_kinds (fun _ => True) _ names
                     keeps_kinds_refl keeps_kinds_trans _ fs1 fs' I H)).
    intros file fsi fsj _ _ Hj. split; [exact I | eauto].
  - unfold effect, Fs.copyFileSync in H.
    destruct (lookup fs src) as [[data|es]|];
      try (injection H as <-; apply keeps_kinds_refl).
    destruct (Fs.write_rec _ dest fs dest data) as [fs1|e] eqn:Hw;
      injection H as <-; [eauto using write_rec_keeps_kinds | apply keeps_kinds_refl].
  - injection H as <-. apply keeps_kinds_refl.
Qed.

Lemma write_keeps_kinds fuel root templateDir file content fs fs' :
  final_fs (write fuel root templateDir file content fs) = Some fs' ->
  keeps_kinds fs fs'.
Proof.
  unfold write, reading. destruct (targetPath_of root file) as [p|e];
    [|intro H; injection H as <-; apply keeps_kinds_refl].
  destruct (truthy_content content); [|apply copy_keeps_kinds].
  unfold effect, Fs.writeFileSync.
  destruct (Fs.write_rec _ p fs p (bytes_of content)) as [fs1|e] eqn:Hw;
    intro H; injection H as <-; [eauto using write_rec_keeps_kinds | apply keeps_kinds_refl].
Qed.

Lemma materialize_keeps_kinds fuel root templateDir fs fs' :
  final_fs (materialize fuel root templateDir fs) = Some fs' -> keeps_kinds fs fs'.
Proof.
  unfold materialize, effect, reading, ensure_root, Fs.mkdirSync. intro H.
  assert ((exists fs1, keeps_kinds fs fs1 /\
            final_fs match Fs.readdirSync fs1 templateDir with
                     | Ok files => for_of files
                                     (fun file => write fuel root templateDir file NoContent) fs1
                     | Throw e => Failed e fs1
                     end = Some fs') \/ fs' = fs) as [(fs1 & Hk & H1) | ->].
  { destruct (negb (Fs.existsSync fs root)).
    - destruct (Fs.mkdir_rec root fs root) as [fs1|e] eqn:Hmk.
      + left. exists fs1. eauto using mkdir_rec_keeps_kinds.
      + right. now injection H as <-.
    - left. exists fs. split; [apply keeps_kinds_refl | assumption]. }
  - apply (keeps_kinds_trans _ fs1); [assumption|].
    destruct (Fs.readdirSync fs1 templateDir) as [names|e];
      [|injection H1 as <-; apply keeps_kinds_refl].
    refine (proj2 (for_of_preserves keeps_kinds (fun _ => True) _ names
                     keeps_kinds_refl keeps_kinds_trans _ fs1 fs' I H1)).
    intros file fsi fsj _ _ Hj. split; [exact I | eauto using write_keeps_kinds].
  - apply keeps_kinds_refl.
Qed.

(** The tree [init] leaves is the tree it got, or the tree its
    materialisation leaves. *)
Lemma init_files argv env u fuel fs :
  files (init argv env u fuel fs) = fs \/
  exists st result,
    ask FRAMEWORKS argv u = (st, Ok result) /\
    final_fs (materialize fuel (root_of env (l_vars st))
                (templateDir_of env (template_in argv result)) fs)
    = Some (files (init argv env u fuel fs)).
Proof.
  unfold init. destruct (truthy (arg_help argv)); [now left|].
  destruct (ask FRAMEWORKS argv u) as [st [result|e]] eqn:H; [|now left].
  destruct (materialize fuel _ _ fs) as [fs'|e fs'|] eqn:Hm; [right | right | now left];
    exists st, result; (split; [reflexivity|]); rewrite Hm; reflexivity.
Qed.

Lemma main_files argv env u fuel fs :
  files (main argv env u fuel fs) = files (init argv env u fuel fs).
Proof.
  unfold main. destruct (settled (init argv env u fuel fs)); reflexivity.
Qed.

(** X6: whatever the arguments, the answers and the way the run ends, the
    program removes nothing: every path that existed before the run exists
    after it, and is a file or a directory as it was. *)
Theorem main_never_removes argv env u fuel fs :
  keeps_kinds fs (files (main argv env u fuel fs)).
Proof.
  rewrite main_files.
  destruct (init_files argv env u fuel fs) as [-> | (st & result & _ & H)].
  - apply keeps_kinds_refl.
  - exact (materialize_keeps_kinds _ _ _ _ _ H).
Qed.

(** ** Nothing is written outside the project root *)

Lemma untouched_refl root fs : untouched_outside root fs fs.
Proof. intros q _. reflexivity. Qed.

Lemma untouched_trans root a b c :
  untouched_outside root a b -> untouched_outside root b c ->
  untouched_outside root a c.
Proof. intros Hab Hbc q Hq. now rewrite Hbc, Hab. Qed.

(** A prefix of a path below [root] is above [root] or below it. *)
Lemma is_prefix_of_extension q : forall root r,
  is_prefix q (root ++ r) = true ->
  is_prefix q root = true \/ is_prefix root q = true.
Proof.
  induction q as [|x q IH]; intros root r H; [now left|].
  destruct root as [|y root]; [now right|].
  simpl in H |- *. apply andb_true_iff in H as (E & H).
  rewrite (jseqb_sym y x), E. simpl. eauto.
Qed.

Lemma apart_not_prefix_of_extension root q r :
  apart root q = true -> is_prefix q (root ++ r) = false.
Proof.
  intro H. apply apart_iff in H as (H1 & H2).
  destruct (is_prefix q (root ++ r)) eqn:E; [|reflexivity].
  apply is_prefix_of_extension in E as [E | E]; congruence.
Qed.

Lemma names_ok_dir es :
  names_ok (Dir es) = true <->
  (forall n c, In (n, c) es -> valid_name n = true /\ names_ok c = true).
Proof.
  simpl. rewrite andb_true_iff, !forallb_forall. split.
  - intros (Hv & Hc) n c Hin. split.
    + apply Hv. now apply (in_map fst) in Hin.
    + exact (Hc _ Hin).
  - intro H. split.
    + intros n Hn. apply in_map_iff in Hn as ([k c] & <- & Hin). now apply (H k c).
    + intros [k c] Hin. now apply (H k c).
Qed.

Lemma in_set_entry es c ch n x :
  In (n, x) (set_entry es c ch) -> In (n, x) es \/ (n, x) = (c, ch).
Proof.
  induction es as [|[k d] es IH]; simpl.
  - intros [E | []]. now right.
  - destruct (jseqb k c) eqn:E; simpl.
    + apply jseqb_eq in E. subst k. intros [H | H]; [right | left]; auto.
    + intros [H | H]; [now left; left|]. destruct (IH H); auto.
Qed.

Lemma names_ok_set_entry es c ch :
  names_ok (Dir es) = true -> valid_name c = true -> names_ok ch = true ->
  names_ok (Dir (set_entry es c ch)) = true.
Proof.
  rewrite !names_ok_dir. intros H Hc Hch n x Hin.
  apply in_set_entry in Hin as [Hin | E]; [now apply H|].
  injection E as -> ->. auto.
Qed.

Lemma names_ok_find es c ch :
  names_ok (Dir es) = true -> find_entry es c = Some ch -> names_ok ch = true.
Proof.
  rewrite names_ok_dir. intros H Hf. apply find_entry_in in Hf. now apply (H c).
Qed.

Lemma names_ok_lookup p : forall t x,
  names_ok t = true -> lookup t p = Some x -> names_ok x = true.
Proof.
  induction p as [|c p IH]; intros t x Ht H; simpl in H.
  - now injection H as <-.
  - destruct t as [d|es]; [discriminate|].
    destruct (find_entry es c) as [ch|] eqn:Hf; [|discriminate].
    eauto using names_ok_find.
Qed.

(** What [readdirSync] lists are names. *)
Lemma readdir_names fs p names :
  names_ok fs = true -> Fs.readdirSync fs p = Ok names ->
  forall n, In n names -> valid_name n = true.
Proof.
  unfold Fs.readdirSync. intros Hok H n Hn.
  destruct (lookup fs p) as [[d|es]|] eqn:E; try discriminate.
  injection H as <-. apply (names_ok_lookup _ _ _ Hok) in E.
  apply in_map_iff in Hn as ([k c] & <- & Hin).
  rewrite names_ok_dir in E. now apply (E k c).
Qed.

Lemma mkdir_rec_names_ok whole rest : forall t t',
  names_ok t = true -> forallb valid_name rest = true ->
  Fs.mkdir_rec whole t rest = Ok t' -> names_ok t' = true.
Proof.
  induction rest as [|c rest IH]; intros t t' Ht Hrest H; simpl in H.
  - destruct t; [discriminate|]. now injection H as <-.
  - destruct t as [d|es]; [discriminate|].
    simpl in Hrest. apply andb_true_iff in Hrest as (Hc & Hrest).
    destruct (find_entry es c) as [ch|] eqn:Hf.
    + destruct (Fs.mkdir_rec whole ch rest) as [ch'|] eqn:Hch; [|discriminate].
      injection H as <-. apply names_ok_set_entry; eauto using names_ok_find.
    + destruct (Fs.mkdir_rec whole (Dir []) rest) as [ch'|] eqn:Hch; [|discriminate].
      injection H as <-. apply names_ok_set_entry; try assumption.
      exact (IH (Dir []) ch' eq_refl Hrest Hch).
Qed.

Lemma write_rec_names_ok sys whole data rest : forall t t',
  names_ok t = true -> forallb valid_name rest = true ->
  Fs.write_rec sys whole t rest data = Ok t' -> names_ok t' = true.
Proof.
  induction rest as [|c rest IH]; intros t t' Ht Hrest H; simpl in H.
  - destruct t; [|discriminate]. now injection H as <-.
  - destruct t as [d|es]; [discriminate|].
    simpl in Hrest. apply andb_true_iff in Hrest as (Hc & Hrest).
    destruct (find_entry es c) as [ch|] eqn:Hf.
    + destruct (Fs.write_rec sys whole ch rest data) as [ch'|] eqn:Hch; [|discriminate].
      injection H as <-. apply names_ok_set_entry; eauto using names_ok_find.
    + destruct rest; [|discriminate]. injection H as <-.
      now apply names_ok_set_entry.
Qed.

Section StaysInRoot.

Variable root : path.

Lemma mkdir_stays fs dest fs1 :
  is_prefix root dest = true -> Fs.mkdir_rec dest fs dest = Ok fs1 ->
  untouched_outside root fs fs1.
Proof.
  intros Hd H q Hq. apply is_prefix_iff in Hd as (r & ->).
  apply (proj1 (mkdir_rec_spec _ _ _ _ H)).
  now apply apart_not_prefix_of_extension.
Qed.

Lemma write_stays sys fs dest data fs1 :
  is_prefix root dest = true -> Fs.write_rec sys dest fs dest data = Ok fs1 ->
  untouched_outside root fs fs1.
Proof.
  intros Hd H q Hq. apply is_prefix_iff in Hd as (r & ->).
  apply (proj1 (proj2 (write_rec_spec _ _ _ _ _ _ H))).
  now apply apart_not_prefix_of_extension.
Qed.

Lemma copy_stays fuel : forall src dest fs fs',
  names_ok fs = true -> forallb valid_name dest = true ->
  is_prefix root dest = true ->
  final_fs (copy fuel src dest fs) = Some fs' ->
  names_ok fs' = true /\ untouched_outside root fs fs'.
Proof.
  induction fuel as [|k IH]; intros src dest fs fs' Hok Hdest Hroot H; [discriminate|].
  assert (names_ok fs = true /\ untouched_outside root fs fs) as Hsame
    by (split; [assumption | apply untouched_refl]).
  rewrite copy_S in H. unfold reading in H.
  destruct (Fs.statSync fs src) as [[|]|e]; [| |now injection H as <-].
  - unfold copyDir_with, effect, reading, Fs.mkdirSync in H.
    destruct (Fs.mkdir_rec dest fs dest) as [fs1|e] eqn:Hmk; [|now injection H as <-].
    pose proof (mkdir_rec_names_ok _ _ _ _ Hok Hdest Hmk) as Hok1.
    pose proof (mkdir_stays _ _ _ Hroot Hmk) as Hst1.
    destruct (Fs.readdirSync fs1 src) as [names|e] eqn:Hrd;
      [|injection H as <-; auto].
    assert (names_ok fs' = true /\ untouched_outside root fs1 fs') as (Hok' & Hst');
      [|eauto using untouched_trans].
    refine (for_of_preserves (untouched_outside root) (fun t => names_ok t = true)
              _ names (untouched_refl root) (untouched_trans root) _ fs1 fs' Hok1 H).
    intros file fsi fsj Hin Hoki Hj.
    pose proof (readdir_names _ _ _ Hok1 Hrd file Hin) as Hv.
    rewrite !resolve_valid in Hj by assumption.
    apply (IH _ _ _ _ Hoki) in Hj; [assumption | |].
    + rewrite forallb_app, Hdest. simpl. now rewrite Hv.
    + apply (is_prefix_trans _ dest); [assumption | apply is_prefix_app].
  - unfold effect, Fs.copyFileSync in H.
    destruct (lookup fs src) as [[data|es]|]; try (now injection H as <-).
    destruct (Fs.write_rec _ dest fs dest data) as [fs1|e] eqn:Hw;
      injection H as <-; [|assumption].
    eauto using write_rec_names_ok, write_stays.
Qed.

Lemma write_file_stays fuel templateDir file fs fs' :
  names_ok fs = true -> forallb valid_name root = true -> valid_name file = true ->
  final_fs (write fuel root templateDir file NoContent fs) = Some fs' ->
  names_ok fs' = true /\ untouched_outside root fs fs'.
Proof.
  intros Hok Hroot Hv. unfold write, reading.
  destruct (inherited file) eqn:Hi.
  - assert (exists e, targetPath_of root file = Throw e) as (e & ->).
    { unfold targetPath_of, renameFiles. unfold inherited in Hi. rewrite Hi.
      destruct (jseqb file (str "_gitignore")) eqn:E; [|eauto].
      apply jseqb_eq in E. subst file. discriminate Hi. }
    intro H. injection H as <-. split; [assumption | apply untouched_refl].
  - rewrite targetPath_of_ok by assumption. cbn [truthy_content].
    apply copy_stays; try assumption.
    + rewrite forallb_app, Hroot. simpl. now rewrite renamed_valid.
    + apply is_prefix_app.
Qed.

Lemma materialize_stays fuel templateDir fs fs' :
  names_ok fs = true -> forallb valid_name root = true ->
  final_fs (materialize fuel root templateDir fs) = Some fs' ->
  names_ok fs' = true /\ untouched_outside root fs fs'.
Proof.
  intros Hok Hroot. unfold materialize, effect, reading.
  assert (names_ok fs = true /\ untouched_outside root fs fs) as Hsame
    by (split; [assumption | apply untouched_refl]).
  destruct (ensure_root fs root) as [fs1|e] eqn:He; [|intro H; now injection H as <-].
  assert (names_ok fs1 = true /\ untouched_outside root fs fs1) as (Hok1 & Hst1).
  { unfold ensure_root, Fs.mkdirSync in He. destruct (negb (Fs.existsSync fs root)).
    - split; [eauto using mkdir_rec_names_ok|].
      apply (mkdir_stays _ _ _ (is_prefix_refl root) He).
    - now injection He as <-. }
  destruct (Fs.readdirSync fs1 templateDir) as [names|e] eqn:Hrd;
    [|intro H; injection H as <-; auto].
  intro H.
  assert (names_ok fs' = true /\ untouched_outside root fs1 fs') as (Hok' & Hst');
    [|eauto using untouched_trans].
  refine (for_of_preserves (untouched_outside root) (fun t => names_ok t = true)
            _ names (untouched_refl root) (untouched_trans root) _ fs1 fs' Hok1 H).
  intros file fsi fsj Hin Hoki Hj.
  apply (write_file_stays fuel templateDir file); try assumption.
  exact (readdir_names _ _ _ Hok1 Hrd file Hin).
Qed.

End StaysInRoot.

(** X7: on a file system whose names are names, run from a working
    directory whose components are names, the program changes nothing at
    any path that lies apart from the project root, whatever the arguments,
    the answers and the way the run ends; in particular a template directory
    apart from the root is left as it was. *)
Theorem main_stays_in_root argv env u fuel fs :
  names_ok fs = true -> forallb valid_name (cwd env) = true ->
  untouched_outside (root_of env (l_vars (fst (ask FRAMEWORKS argv u))))
                    fs (files (main argv env u fuel fs)).
Proof.
  intros Hok Hcwd. rewrite main_files.
  destruct (init_files argv env u fuel fs) as [-> | (st & result & Hask & H)].
  - apply untouched_refl.
  - rewrite Hask. cbn [fst].
    refine (proj2 (materialize_stays _ fuel _ fs _ Hok _ H)).
    now apply root_of_valid.
Qed.

Lemma main_stays_in_root_witness :
  lookup (files (main argv_app env_example first_row 3 fs_example)) templateDir_example
  = Some template_example.
Proof.
  exact (main_stays_in_root argv_app env_example first_row 3 fs_example
           eq_refl eq_refl templateDir_example eq_refl).
Defined.

(** ** A template directory that is not there *)

(** [missing_code] says [ENOTDIR] exactly when the path runs through a
    file. *)
Lemma missing_code_spec p : forall t,
  lookup t p = None ->
  (missing_code t p = ENOTDIR \/ missing_code t p = ENOENT) /\
  (missing_code t p = ENOTDIR <->
   exists q data, is_prefix q p = true /\ lookup t q = Some (File data)).
Proof.
  induction p as [|c p IH]; intros t H; [discriminate|].
  simpl in H |- *. destruct t as [d|es].
  - split; [now left|]. split; [|reflexivity].
    intros _. exists [], d. now split.
  - destruct (find_entry es c) as [ch|] eqn:Hf.
    + destruct (IH ch H) as (Hcases & Hiff). split; [assumption|].
      rewrite Hiff. split.
      * intros (q & data & Hq & Hl). exists (c :: q), data. simpl.
        now rewrite jseqb_refl, Hf.
      * intros ([|x q] & data & Hq & Hl); [discriminate|].
        simpl in Hq, Hl. apply andb_true_iff in Hq as (E & Hq).
        apply jseqb_eq in E. subst x. rewrite Hf in Hl. eauto.
    + split; [now right|]. split; [discriminate|].
      intros ([|x q] & data & Hq & Hl); [discriminate|].
      simpl in Hq, Hl. apply andb_true_iff in Hq as (E & Hq).
      apply jseqb_eq in E. subst x. rewrite Hf in Hl. discriminate.
Qed.

(** X8: when the template directory is missing, or is a file, the run has
    created the project root (and what is above it) by the time
    [readdirSync] throws; the materialisation fails for every fuel, with
    [ENOTDIR] when the path of the template is or runs through a file and
    with [ENOENT] otherwise, and leaves that root behind. *)
Theorem missing_template_leaves_root fs root templateDir :
  creatable fs root = true ->
  is_prefix templateDir root = false ->
  (forall es, lookup fs templateDir <> Some (Dir es)) ->
  exists fs1 code,
    ensure_root fs root = Ok fs1 /\
    (code = ENOTDIR \/ code = ENOENT) /\
    (code = ENOTDIR <->
     exists q data, is_prefix q templateDir = true /\ lookup fs q = Some (File data)) /\
    (forall fuel, materialize fuel root templateDir fs
                  = Failed (SystemError code (str "scandir") templateDir) fs1) /\
    (exists es, lookup fs1 root = Some (Dir es)) /\
    (forall q, is_prefix q root = false -> lookup fs1 q = lookup fs q).
Proof.
  intros Hcr Hpre Hnot.
  destruct (ensure_root_spec fs root Hcr) as (fs1 & He & Hout & Hin).
  assert (forall q data, is_prefix q templateDir = true ->
            (lookup fs1 q = Some (File data) <-> lookup fs q = Some (File data)))
    as Hsame.
  { intros q data Hq. destruct (is_prefix q root) eqn:Hqr.
    - destruct (Hin q Hqr) as (es & Hes). rewrite Hes. split; [discriminate|].
      intro Hf. now destruct (creatable_no_file _ _ Hcr q data Hqr).
    - now rewrite Hout. }
  pose proof (Hout _ Hpre) as Htpl.
  exists fs1,
    (match lookup fs1 templateDir with
     | Some _ => ENOTDIR
     | None => missing_code fs1 templateDir
     end).
  split; [assumption|].
  assert (forall fuel, materialize fuel root templateDir fs
            = Failed (SystemError match lookup fs1 templateDir with
                                  | Some _ => ENOTDIR
                                  | None => missing_code fs1 templateDir
                                  end (str "scandir") templateDir) fs1) as Hfail.
  { intro fuel. unfold materialize, effect, reading, Fs.readdirSync. rewrite He.
    destruct (lookup fs1 templateDir) as [[d|es]|] eqn:E; try reflexivity.
    rewrite Htpl in E. now destruct (Hnot es). }
  destruct (lookup fs1 templateDir) as [[d|es]|] eqn:E.
  - split; [now left|]. split; [|split; [exact Hfail|split; [apply Hin, is_prefix_refl | exact Hout]]].
    split; [|reflexivity]. intros _. exists templateDir, d.
    split; [apply is_prefix_refl | now rewrite <- Htpl].
  - rewrite Htpl in E. now destruct (Hnot es).
  - destruct (missing_code_spec _ _ E) as (Hcases & Hiff).
    split; [assumption|].
    split; [|split; [exact Hfail|split; [apply Hin, is_prefix_refl | exact Hout]]].
    rewrite Hiff. split; intros (q & data & Hq & Hl); exists q, data;
      (split; [assumption|]); now apply (Hsame q data Hq).
Qed.

Lemma missing_template_leaves_root_witness :
  (exists fs1,
     materialize 0 [str "home"; str "u"; str "new"; str "app"]
                 [str "opt"; str "vite-cli"; str "template-vue"] fs_example
     = Failed (SystemError ENOENT (str "scandir")
                           [str "opt"; str "vite-cli"; str "template-vue"]) fs1 /\
     lookup fs1 [str "home"; str "u"; str "new"; str "app"] = Some (Dir [])) /\
  materialize 0 root_example (root_example ++ [str "README.md"; str "t"]) fs_example
  = Failed (SystemError ENOTDIR (str "scandir")
                        (root_example ++ [str "README.md"; str "t"])) fs_example.
Proof.
  split.
  - destruct (missing_template_leaves_root fs_example
                [str "home"; str "u"; str "new"; str "app"]
                [str "opt"; str "vite-cli"; str "template-vue"] eq_refl eq_refl)
      as (fs1 & code & He & Hcases & Hiff & Hfail & _).
    + intros es. discriminate.
    + exists fs1. pose proof (Hfail 0) as H. vm_compute in H, He.
      injection He as <-. injection H as <-. split; reflexivity.
  - destruct (missing_template_leaves_root fs_example root_example
                (root_example ++ [str "README.md"; str "t"]) eq_refl eq_refl)
      as (fs1 & code & He & Hcases & Hiff & Hfail & _).
    + intros es. discriminate.
    + rewrite (Hfail 0).
      assert (fs1 = fs_example) as -> by (revert He; vm_compute; congruence).
      assert (code = ENOTDIR) as ->; [|reflexivity].
      apply Hiff. exists (root_example ++ [str "README.md"]), [35%N]. now split.
Defined.

(** ** Writing a given content *)

(** A truthy content is stored as its bytes, at the renamed name under the
    root. *)
Lemma write_truthy fuel root templateDir file c fs es :
  valid_name file = true -> inherited file = false ->
  lookup fs root = Some (Dir es) ->
  (forall es', find_entry es (renamed file) <> Some (Dir es')) ->
  truthy_content c = true ->
  exists fs',
    write fuel root templateDir file c fs = Done fs' /\
    lookup fs' (root ++ [renamed file]) = Some (File (bytes_of c)) /\
    forall q, is_prefix q (root ++ [renamed file]) = false ->
              lookup fs' q = lookup fs q.
Proof.
  intros Hv Hi Hroot Hfree Ht.
  unfold write, reading. rewrite targetPath_of_ok by assumption. rewrite Ht.
  unfold effect, Fs.writeFileSync.
  destruct (write_rec_ok (str "open") (root ++ [renamed file]) (bytes_of c)
              root (renamed file) fs es Hroot Hfree) as (fs' & Hw).
  rewrite Hw. exists fs'. split; [reflexivity|].
  destruct (write_rec_spec _ _ _ _ _ _ Hw) as (Hat & Hout & _). auto.
Qed.

(** X9: given a buffer, also an empty one, [write] stores its bytes in the
    file of the renamed name under the root; given a string that is not
    empty it stores the UTF-8 encoding of the string; in both cases it does
    not read the template, whatever the fuel, and changes nothing else.  An
    empty string counts as no content, and the entry is copied from the
    template. *)
Theorem write_with_content fuel root templateDir file fs es :
  valid_name file = true -> inherited file = false ->
  lookup fs root = Some (Dir es) ->
  (forall es', find_entry es (renamed file) <> Some (Dir es')) ->
  (forall data, exists fs',
     write fuel root templateDir file (Bytes data) fs = Done fs' /\
     lookup fs' (root ++ [renamed file]) = Some (File data) /\
     forall q, is_prefix q (root ++ [renamed file]) = false ->
               lookup fs' q = lookup fs q) /\
  (forall c s, exists fs',
     write fuel root templateDir file (Text (c :: s)) fs = Done fs' /\
     lookup fs' (root ++ [renamed file]) = Some (File (utf8 (c :: s))) /\
     forall q, is_prefix q (root ++ [renamed file]) = false ->
               lookup fs' q = lookup fs q) /\
  write fuel root templateDir file (Text []) fs
  = write fuel root templateDir file NoContent fs.
Proof.
  intros Hv Hi Hroot Hfree. split; [|split; [|reflexivity]].
  - intro data.
    exact (write_truthy fuel root templateDir file (Bytes data) fs es
             Hv Hi Hroot Hfree eq_refl).
  - intros c s.
    exact (write_truthy fuel root templateDir file (Text (c :: s)) fs es
             Hv Hi Hroot Hfree eq_refl).
Qed.

Lemma write_with_content_witness :
  (exists fs',
     write 0 root_example templateDir_example (str "_gitignore") (Bytes []) fs_example
     = Done fs' /\
     lookup fs' (root_example ++ [str ".gitignore"]) = Some (File []) /\
     lookup fs' (root_example ++ [str "README.md"]) = Some (File [35]%N)) /\
  (exists fs',
     write 0 root_example templateDir_example (str "_gitignore")
           (Text [0x64; 0xE9; 0x20AC]%N) fs_example = Done fs' /\
     lookup fs' (root_example ++ [str ".gitignore"])
     = Some (File [0x64; 0xC3; 0xA9; 0xE2; 0x82; 0xAC]%N)).
Proof.
  destruct (write_with_content 0 root_example templateDir_example (str "_gitignore")
              fs_example
              [ (str "README.md", File [35]%N);
                (str "index.html", File [111; 108; 100]%N) ]
              eq_refl eq_refl eq_refl) as (Hbytes & Htext & _).
  - intros es'. discriminate.
  - split.
    + destruct (Hbytes []) as (fs' & Hrun & Hat & Hout).
      exists fs'. split; [assumption|]. split; [assumption|].
      rewrite Hout by reflexivity. reflexivity.
    + destruct (Htext 0x64%N [0xE9; 0x20AC]%N) as (fs' & Hrun & Hat & _).
      exists fs'. split; [assumption|]. exact Hat.
Defined.


(** ** A whole run *)

(** X10: a run without [--help] whose questions are all answered, on a
    copyable scene for the root and the template it resolves and with fuel
    for the depth of the template, prints the two progress lines and the
    closing instructions, returns with the exit code 0 and leaves the
    template materialised in the root. *)
Theorem complete_run argv env u fuel fs st result es :
  truthy (arg_help argv) = false ->
  ask FRAMEWORKS argv u = (st, Ok result) ->
  lookup fs (templateDir_of env (template_in argv result)) = Some (Dir es) ->
  copyable fs (templateDir_of env (template_in argv result))
           (root_of env (l_vars st)) es = true ->
  height (Dir es) <= fuel ->
  exists fs',
    main argv env u fuel fs
    = mkWorld ([ Log (str "result " ++ show_val (get result (str "variant"))
                      ++ space :: l_vars st);
                 Log (str "
Scaffolding project in " ++ Path.render (root_of env (l_vars st)) ++ str "...") ]
               ++ done_lines env (root_of env (l_vars st)))
              fs' Returned /\
    materialized es (root_of env (l_vars st)) fs fs' /\
    exit_code (main argv env u fuel fs) = Some 0.
Proof.
  intros Hh Hask Htpl Hok Hfuel.
  destruct (materialize_spec fuel fs _ _ es Htpl Hok Hfuel) as (fs' & Hrun & Hm).
  exists fs'.
  assert (main argv env u fuel fs
          = mkWorld ([ Log (str "result " ++ show_val (get result (str "variant"))
                            ++ space :: l_vars st);
                       Log (str "
Scaffolding project in " ++ Path.render (root_of env (l_vars st)) ++ str "...") ]
                     ++ done_lines env (root_of env (l_vars st)))
                    fs' Returned) as E.
  { unfold main, init. rewrite Hh, Hask, Hrun. reflexivity. }
  rewrite E. repeat split; try assumption; apply Hm.
Qed.

Lemma complete_run_witness :
  exists fs',
    files (main argv_app env_example first_row 3 fs_example) = fs' /\
    settled (main argv_app env_example first_row 3 fs_example) = Returned /\
    In (Log (str "  cd my-app"))
       (console (main argv_app env_example first_row 3 fs_example)) /\
    materialized entries_example root_example fs_example fs'.
Proof.
  destruct (complete_run argv_app env_example first_row 3 fs_example
              _ _ entries_example eq_refl (surjective_pairing _) eq_refl eq_refl (le_n 3))
    as (fs' & E & Hm & _).
  exists fs'. rewrite E. split; [reflexivity|]. split; [reflexivity|].
  split; [|exact Hm].
  cbn [console]. apply in_or_app. right. vm_compute. tauto.
Defined.

Lemma main_never_removes_witness :
  exists x,
    lookup (files (main argv_app env_example first_row 3 fs_example))
           (root_example ++ [str "README.md"]) = Some x /\
    is_dir x = false.
Proof.
  exact (main_never_removes argv_app env_example first_row 3 fs_example
           (root_example ++ [str "README.md"]) (File [35]%N) eq_refl).
Defined.

(** ** Conflicts of kind *)

Lemma mkdir_rec_at_file whole rest : forall t data,
  lookup t rest = Some (File data) ->
  Fs.mkdir_rec whole t rest = Throw (SystemError EEXIST (str "mkdir") whole).
Proof.
  induction rest as [|c rest IH]; intros t data H; simpl in *.
  - now injection H as ->.
  - destruct t as [d|es]; [discriminate|].
    destruct (find_entry es c) as [ch|]; [|discriminate].
    now rewrite (IH _ _ H).
Qed.

Lemma write_rec_at_dir sys whole data rest : forall t es,
  lookup t rest = Some (Dir es) ->
  Fs.write_rec sys whole t rest data = Throw (SystemError EISDIR sys whole).
Proof.
  induction rest as [|c rest IH]; intros t es H; simpl in *.
  - now injection H as ->.
  - destruct t as [d|es']; [discriminate|].
    destruct (find_entry es' c) as [ch|]; [|discriminate].
    now rewrite (IH _ _ H).
Qed.

(** X11: [copy] onto something of the other kind fails at its first
    file-system call and changes nothing: a directory onto a file with
    [EEXIST] from [mkdirSync], a file onto a directory with [EISDIR] from
    [copyFileSync]. *)
Theorem copy_kind_conflict fuel src dest fs s d :
  lookup fs src = Some s -> lookup fs dest = Some d ->
  is_dir s = negb (is_dir d) ->
  copy (S fuel) src dest fs
  = Failed (if is_dir s
            then SystemError EEXIST (str "mkdir") dest
            else SystemError EISDIR (str "copyfile") dest) fs.
Proof.
  intros Hs Hd Hk. rewrite copy_S. unfold reading, Fs.statSync. rewrite Hs.
  destruct s as [data|es], d as [data'|es']; try discriminate; simpl.
  - unfold effect, Fs.copyFileSync. rewrite Hs.
    now rewrite (write_rec_at_dir _ _ _ _ _ _ Hd).
  - unfold copyDir_with, effect, Fs.mkdirSync.
    now rewrite (mkdir_rec_at_file _ _ _ _ Hd).
Qed.

Lemma copy_kind_conflict_witness :
  copy 1 (templateDir_example ++ [str "src"]) (root_example ++ [str "README.md"])
       fs_example
  = Failed (SystemError EEXIST (str "mkdir") (root_example ++ [str "README.md"]))
           fs_example.
Proof.
  exact (copy_kind_conflict 0 (templateDir_example ++ [str "src"])
           (root_example ++ [str "README.md"]) fs_example _ _ eq_refl eq_refl eq_refl).
Defined.

(** ** Running again *)

Lemma write_rec_same sys whole data rest : forall t,
  lookup t rest = Some (File data) ->
  Fs.write_rec sys whole t rest data = Ok t.
Proof.
  induction rest as [|c rest IH]; intros t H; simpl in *.
  - now injection H as ->.
  - destruct t as [d|es]; [discriminate|].
    destruct (find_entry es c) as [ch|] eqn:Hf; [|discriminate].
    rewrite (IH _ H). simpl. now rewrite set_entry_same.
Qed.

Lemma for_of_nothing (body : jsstring -> node -> outcome) fs l :
  (forall file, In file l -> body file fs = Done fs) -> for_of l body fs = Done fs.
Proof.
  induction l as [|file l IH]; intro H; simpl; [reflexivity|].
  rewrite (H file (or_introl eq_refl)). apply IH. intros f Hf. apply H. now right.
Qed.

Lemma present_child es n c dest fs :
  find_entry es n = Some c -> present (Dir es) dest fs -> present c (dest ++ [n]) fs.
Proof.
  intros Hc (Hfiles & Hdirs). split.
  - intros r data H. rewrite <- snoc_cons. apply Hfiles.
    now rewrite (lookup_entry _ _ _ _ Hc).
  - intros r es' H. rewrite <- snoc_cons. apply (Hdirs (n :: r) es').
    now rewrite (lookup_entry _ _ _ _ Hc).
Qed.

(** Copying a tree to where it already is changes nothing. *)
Lemma copy_again : forall fuel t src dest fs,
  height t < fuel -> names_ok t = true ->
  lookup fs src = Some t -> present t dest fs ->
  copy fuel src dest fs = Done fs.
Proof.
  induction fuel as [|k IH]; intros t src dest fs Hfuel Hok Hsrc Hpre; [lia|].
  rewrite copy_S. unfold reading, Fs.statSync. rewrite Hsrc.
  destruct Hpre as (Hfiles & Hdirs). destruct t as [data|es].
  - unfold effect, Fs.copyFileSync. rewrite Hsrc.
    specialize (Hfiles [] data eq_refl). rewrite app_nil_r in Hfiles.
    now rewrite (write_rec_same _ _ _ _ _ Hfiles).
  - destruct (Hdirs [] es eq_refl) as (es' & Hdest). rewrite app_nil_r in Hdest.
    unfold copyDir_with, effect, reading, Fs.mkdirSync, Fs.readdirSync.
    rewrite (mkdir_rec_existing _ _ _ _ Hdest), Hsrc.
    apply for_of_nothing. intros n Hn.
    destruct (find_entry_name _ _ Hn) as (c & Hc).
    pose proof (find_entry_in _ _ _ Hc) as Hin.
    rewrite names_ok_dir in Hok. destruct (Hok n c Hin) as (Hv & Hokc).
    rewrite !resolve_valid by assumption.
    apply (IH c); try assumption.
    + pose proof (height_child _ _ _ Hin). lia.
    + rewrite lookup_app, Hsrc. now apply lookup_entry with (r := []) in Hc.
    + now apply (present_child es).
Qed.

Lemma wfb_names_ok : forall n t, height t < n -> wfb t = true -> names_ok t = true.
Proof.
  induction n as [|n IH]; intros t Hn Hwf; [lia|].
  destruct t as [d|es]; [reflexivity|].
  destruct (wfb_dir _ Hwf) as (_ & Hv & Hc). apply names_ok_dir.
  intros k c Hin. split.
  - apply Hv. now apply (in_map fst) in Hin.
  - apply IH; [|now apply (Hc k)]. pose proof (height_child _ _ _ Hin). lia.
Qed.

(** X12: a materialisation that has succeeded on a copyable scene can be
    run again on the tree it left, and then changes nothing at all. *)
Theorem materialize_again fuel fs templateDir root es :
  lookup fs templateDir = Some (Dir es) ->
  copyable fs templateDir root es = true ->
  height (Dir es) <= fuel ->
  exists fs', materialize fuel root templateDir fs = Done fs' /\
              materialize fuel root templateDir fs' = Done fs'.
Proof.
  intros Htpl Hok Hfuel.
  destruct (materialize_spec fuel fs templateDir root es Htpl Hok Hfuel)
    as (fs' & Hrun & A & B & C & D).
  destruct (copyable_inv _ _ _ _ Hok) as (Hwf & Hap & _ & _ & Hinh & _).
  destruct (wfb_dir _ Hwf) as (_ & Hvalid & Hwfc).
  exists fs'. split; [assumption|].
  assert (lookup fs' templateDir = Some (Dir es)) as Htpl'.
  { rewrite A; [assumption | now apply apart_left |].
    intros (n & r & E & _). apply (apart_not_below root templateDir (renamed n :: r)).
    - now rewrite apart_sym.
    - now symmetry. }
  destruct (B root (is_prefix_refl root)) as (res & Hroot).
  unfold materialize, effect, reading, ensure_root, Fs.existsSync, Fs.readdirSync.
  rewrite Hroot. cbn [negb]. rewrite Htpl'. apply for_of_nothing. intros n Hn.
  destruct (find_entry_name _ _ Hn) as (c & Hc).
  pose proof (find_entry_in _ _ _ Hc) as Hin.
  unfold write, reading. rewrite targetPath_of_ok by auto. cbn [truthy_content].
  rewrite join_valid by auto.
  apply (copy_again fuel c).
  - pose proof (height_child _ _ _ Hin). lia.
  - apply (wfb_names_ok (S (height c))); [lia | now apply (Hwfc n)].
  - rewrite lookup_app, Htpl'. now apply lookup_entry with (r := []) in Hc.
  - split.
    + intros r data H. rewrite <- snoc_cons. apply C.
      now rewrite (lookup_entry _ _ _ _ Hc).
    + intros r es' H. rewrite <- snoc_cons. apply (D n r es').
      now rewrite (lookup_entry _ _ _ _ Hc).
Qed.

Lemma materialize_again_witness :
  exists fs',
    materialize 3 root_example templateDir_example fs_example = Done fs' /\
    materialize 3 root_example templateDir_example fs' = Done fs' /\
    fs' <> fs_example.
Proof.
  destruct (materialize_again 3 fs_example templateDir_example root_example
              entries_example eq_refl eq_refl (le_n 3)) as (fs' & H1 & H2).
  exists fs'. split; [assumption|]. split; [assumption|].
  revert H1. vm_compute. intros H1 E. rewrite E in H1. discriminate.
Defined.

(* ================================================================== *)
(** * Beyond the claims: how the question loop fails *)

(** X13: whatever the catalog, the question loop of [init] fails in one
    way only: with the cancel error, at a question the user aborted, which
    is the last one shown; no question shown before it was aborted. *)
Theorem prompt_failure_is_cancel frameworks argv u st e :
  ask frameworks argv u = (st, Throw e) ->
  e = Error cancel_message /\
  exists before name,
    l_asked st = before ++ [name] /\
    r_abort (u name) = true /\
    forall n, In n before -> r_abort (u n) = false.
Proof.
  intro H. apply ask_table in H. unfold decision_table in H.
  repeat match type of H with
  | context [if ?c then _ else _] => destruct c eqn:?
  | context [match nth_error ?l ?n with _ => _ end] => destruct (nth_error l n) eqn:?
  | context [match f_variants ?f with _ => _ end] => destruct (f_variants f) eqn:?
  end; injection H as Hasked Hres; try discriminate Hres;
  subst e; (split; [reflexivity|]); rewrite <- Hasked;
  repeat match goal with
  | Hb : negb _ && _ = _ |- _ => cbn [negb andb] in Hb
  end.
  all: try match goal with
           | Hb : negb _ && r_abort _ = true |- _ =>
             apply andb_true_iff in Hb as (_ & Hb)
           end.
  all: try (exists [], (str "projectName"); repeat split; [assumption | intros n []]).
  all: try (exists [], (str "framework"); repeat split; [assumption | intros n []]).
  all: try (exists [str "projectName"], (str "framework"); repeat split;
            [assumption | intros n [<- | []]; assumption]).
  all: try (exists [str "framework"], (str "variant"); repeat split;
            [assumption | intros n [<- | []]; assumption]).
  all: try (exists [str "projectName"; str "framework"], (str "variant"); repeat split;
            [assumption | intros n [<- | [<- | []]]; assumption]).
Qed.

Lemma prompt_failure_is_cancel_witness :
  exists before,
    l_asked (fst (ask FRAMEWORKS argv_bogus
                      (fun name => mkResponse [] [] 0 (jseqb name (str "variant")))))
    = before ++ [str "variant"].
Proof.
  destruct (prompt_failure_is_cancel FRAMEWORKS argv_bogus
              (fun name => mkResponse [] [] 0 (jseqb name (str "variant")))
              _ _ (surjective_pairing _)) as (_ & before & name & Hl & Hab & _).
  exists before. cbn [r_abort] in Hab. apply jseqb_eq in Hab. now subst name.
Defined.
